(** * ozip2zip-back: the transfer-list codec and the OZIP cipher loops

    A shallow embedding of [code.py] (class [OppoConverter]) and proofs about
    it.  Python integers are [Z], [bytes] values are lists of [Byte.byte],
    [str] values are [string]s whose characters are the code points below 256.
    Files are passed by content; the one file a method opens for writing is a
    slot of the state, so that what is left behind by a raised exception can
    be observed. *)

From Stdlib Require Import ZArith Ascii String.
From Stdlib.Strings Require Import Byte.
From stdpp Require Import base tactics option list numbers strings pretty.
From Equations Require Import Equations.

Local Open Scope Z_scope.

(** ** Python built-ins used by the program *)

Module Py.

Definition ord (c : ascii) : Z := Z.of_N (N_of_ascii c).

(** [str.isspace] on the code points below 256; [str.strip] removes these. *)
Definition isspace (c : ascii) : bool :=
  let n := ord c in
  bool_decide (9 ≤ n ≤ 13) || bool_decide (28 ≤ n ≤ 32)
  || bool_decide (n = 133) || bool_decide (n = 160).

(** The blanks [int] accepts around a literal: the file separators
    28..31 are stripped by [str.strip] but refused by [int]. *)
Definition int_space (c : ascii) : bool :=
  let n := ord c in
  bool_decide (9 ≤ n ≤ 13) || bool_decide (n = 32)
  || bool_decide (n = 133) || bool_decide (n = 160).

(** [str.isdigit] holds of the ASCII digits and of the superscripts
    two, three and one. *)
Definition isdigit_char (c : ascii) : bool :=
  let n := ord c in
  bool_decide (48 ≤ n ≤ 57) || bool_decide (n = 178)
  || bool_decide (n = 179) || bool_decide (n = 185).

Definition digit_val (c : ascii) : option Z :=
  let n := ord c in
  if bool_decide (48 ≤ n ≤ 57) then Some (n - 48) else None.

Fixpoint all_chars (p : ascii → bool) (s : string) : bool :=
  match s with
  | EmptyString => true
  | String c s' => p c && all_chars p s'
  end.

(** [s.isdigit()]: every character is a digit and there is at least one. *)
Definition isdigit (s : string) : bool :=
  match s with
  | EmptyString => false
  | _ => all_chars isdigit_char s
  end.

Fixpoint lstrip_with (p : ascii → bool) (s : string) : string :=
  match s with
  | EmptyString => EmptyString
  | String c s' => if p c then lstrip_with p s' else s
  end.

Fixpoint rstrip (s : string) : string :=
  match s with
  | EmptyString => EmptyString
  | String c s' =>
      match rstrip s' with
      | EmptyString => if isspace c then EmptyString else String c EmptyString
      | r => String c r
      end
  end.

(** [s.strip()] *)
Definition strip (s : string) : string := rstrip (lstrip_with isspace s).

(** [s.split(sep)] for a one-character separator: every occurrence
    splits, so adjacent separators give empty pieces and the result is
    never empty. *)
Fixpoint split (sep : ascii) (s : string) : list string :=
  match s with
  | EmptyString => [EmptyString]
  | String c s' =>
      if decide (c = sep) then EmptyString :: split sep s'
      else match split sep s' with
           | w :: ws => String c w :: ws
           | [] => [String c EmptyString]
           end
  end.

(** [s.startswith(c)] for a one-character prefix. *)
Definition startswith (c : ascii) (s : string) : bool :=
  match s with
  | String c' _ => bool_decide (c' = c)
  | EmptyString => false
  end.

(** The digit scan of [int]: digits, with single underscores between
    them.  Returns the value and what follows the literal. *)
Fixpoint scan_digits (acc : Z) (prev_underscore : bool) (s : string)
  : option (Z * string) :=
  match s with
  | EmptyString => if prev_underscore then None else Some (acc, EmptyString)
  | String c s' =>
      match digit_val c with
      | Some d => scan_digits (acc * 10 + d) false s'
      | None =>
          if decide (c = "_"%char)
          then (if prev_underscore then None else scan_digits acc true s')
          else (if prev_underscore then None else Some (acc, s))
      end
  end.

(** [int(s)] in base 10; [None] stands for [ValueError].  (The limit of
    4300 digits of recent interpreters is not modelled.) *)
Definition int (s : string) : option Z :=
  let s := lstrip_with int_space s in
  let '(sign, s) :=
    match s with
    | String c r =>
        if decide (c = "+"%char) then (1, r)
        else if decide (c = "-"%char) then (-1, r)
        else (1, s)
    | EmptyString => (1, s)
    end in
  match s with
  | String c _ =>
      if is_Some_dec (digit_val c) then
        match scan_digits 0 false s with
        | Some (v, rest) =>
            if all_chars int_space rest then Some (sign * v) else None
        | None => None
        end
      else None
  | EmptyString => None
  end.

(** [str(n)], also what an f-string gives for an integer. *)
Definition str (n : Z) : string := pretty n.

(** Reading a file opened in text mode: universal newlines turn CR LF and
    a lone CR into LF. *)
Fixpoint text_read (s : string) : string :=
  match s with
  | EmptyString => EmptyString
  | String c s' =>
      if decide (c = "013"%char)
      then String "010"
             match s' with
             | String "010" s'' => text_read s''
             | _ => text_read s'
             end
      else String c (text_read s')
  end.

(** Writing a file opened in text mode: each LF becomes [os.linesep]. *)
Inductive platform := Posix | Windows.

Definition linesep (p : platform) : string :=
  match p with
  | Posix => String "010" EmptyString
  | Windows => String "013" (String "010" EmptyString)
  end.

Fixpoint text_write (p : platform) (s : string) : string :=
  match s with
  | EmptyString => EmptyString
  | String c s' =>
      if decide (c = "010"%char) then linesep p +:+ text_write p s'
      else String c (text_write p s')
  end.

(** [f.readlines()]: the lines with their line ends kept. *)
Fixpoint readlines (s : string) : list string :=
  match s with
  | EmptyString => []
  | String c s' =>
      if decide (c = "010"%char) then String c EmptyString :: readlines s'
      else match readlines s' with
           | l :: ls => String c l :: ls
           | [] => [String c EmptyString]
           end
  end.

End Py.


(** ** Bytes, exceptions and the state of a conversion *)

Abbreviation byte := Byte.byte.
Abbreviation bytes := (list Byte.byte).

Global Instance byte_eq_dec : EqDecision byte := Byte.byte_eq_dec.

Definition LF : string := String "010" EmptyString.

(** [bytes([n])], for the values a padding length takes. *)
Definition bchr (n : nat) : byte := default x00 (Byte.of_nat n).

Inductive exn :=
| Exception (msg : string)
| ValueError (msg : string)
| OSError (msg : string)
| binascii_Error (msg : string).

(** [str(e)] *)
Definition exn_str (e : exn) : string :=
  match e with
  | Exception msg | ValueError msg | OSError msg | binascii_Error msg => msg
  end.

Inductive result (A : Type) :=
| Return (a : A)
| Raise (e : exn).
Arguments Return {A} a.
Arguments Raise {A} e.

Global Instance exn_eq_dec : EqDecision exn.
Proof. solve_decision. Defined.

Global Instance result_eq_dec `{EqDecision A} : EqDecision (result A).
Proof. solve_decision. Defined.

(** What a method of [OppoConverter] can read and change.  The first three
    fields are attributes of [self].  [output] is the file at the method's
    output path, [None] as long as the method has not created it, and
    [position] is where the file object opened on it writes next.
    [aes_new_calls] records the keys [AES.new] was called with, oldest
    first; no method reads it. *)
Record state := State {
  cancel_requested : bool;
  successful_key : option string;
  message_queue : list string;
  output : option bytes;
  position : nat;
  aes_new_calls : list bytes;
}.

Global Instance state_eq_dec : EqDecision state.
Proof. solve_decision. Defined.

Definition M (A : Type) : Type := state → state * result A.

Global Instance M_ret : MRet M := λ A a st, (st, Return a).
Global Instance M_bind : MBind M := λ A B f m st,
  match m st with
  | (st', Return a) => f a st'
  | (st', Raise e) => (st', Raise e)
  end.

Definition raise {A} (e : exn) : M A := λ st, (st, Raise e).

(** [try: body / except Exception as e: handler e] *)
Definition try_except {A} (body : M A) (handler : exn → M A) : M A := λ st,
  match body st with
  | (st', Raise e) => handler e st'
  | r => r
  end.

(** A computation that reads the state and leaves it as it is. *)
Definition reading {A} (f : state → result A) : M A := λ st, (st, f st).

Definition get_cancel_requested : M bool :=
  λ st, (st, Return (cancel_requested st)).

Definition get_successful_key : M (option string) :=
  λ st, (st, Return (successful_key st)).

(** The state with other contents of the output file and another position. *)
Definition with_output (f : option bytes) (p : nat) (st : state) : state :=
  State (cancel_requested st) (successful_key st) (message_queue st) f p
    (aes_new_calls st).

(** The state with more messages in the queue. *)
Definition with_messages (msgs : list string) (st : state) : state :=
  State (cancel_requested st) (successful_key st) (message_queue st ++ msgs)
    (output st) (position st) (aes_new_calls st).

Definition with_successful_key (k : string) (st : state) : state :=
  State (cancel_requested st) (Some k) (message_queue st) (output st)
    (position st) (aes_new_calls st).

Definition with_aes_new (keys : list bytes) (st : state) : state :=
  State (cancel_requested st) (successful_key st) (message_queue st) (output st)
    (position st) (aes_new_calls st ++ keys).

Definition set_successful_key (k : string) : M unit :=
  λ st, (with_successful_key k st, Return ()).

(** [self.log_message(message)]: the message joins the queue. *)
Definition log_message (message : string) : M unit :=
  λ st, (with_messages [message] st, Return ()).

Definition set_output (f : option bytes) (p : nat) : M unit :=
  λ st, (with_output f p st, Return ()).

Definition record_aes_new (key : bytes) : M unit :=
  λ st, (with_aes_new [key] st, Return ()).

(** *** The file opened with mode ['wb'] *)

Definition closed_file {A} : M A :=
  raise (ValueError "I/O operation on closed file").

(** [open(path, 'wb')]: the file is created, or emptied. *)
Definition open_wb : M unit := set_output (Some []) 0.

(** [f.truncate(size)]: cut, or extended with zero bytes; the position
    stays.  The file takes any size: the [OverflowError] of a size from
    2^63 on is not modelled. *)
Definition truncate (size : Z) : M unit := λ st,
  match output st with
  | Some old =>
      if bool_decide (size < 0) then raise (OSError "[Errno 22] Invalid argument") st
      else set_output (Some (resize (Z.to_nat size) x00 old)) (position st) st
  | None => closed_file st
  end.

(** [f.seek(offset)]; a negative offset is refused by the system call.
    Offsets outside the signed 64-bit range, which raise before the
    system call is made, are not modelled. *)
Definition seek (offset : Z) : M unit := λ st,
  match output st with
  | Some old =>
      if bool_decide (offset < 0) then raise (OSError "[Errno 22] Invalid argument") st
      else set_output (Some old) (Z.to_nat offset) st
  | None => closed_file st
  end.

(** [f.write(data)]: overwrites from the position on; a gap between the end
    of the file and the position reads as zero bytes; writing nothing
    changes nothing. *)
Definition write_at (p : nat) (data old : bytes) : bytes :=
  match data with
  | [] => old
  | _ => resize p x00 old ++ data ++ drop (p + length data) old
  end.

Definition write (data : bytes) : M unit := λ st,
  match output st with
  | Some old =>
      set_output (Some (write_at (position st) data old))
                 (position st + length data)%nat st
  | None => closed_file st
  end.

(** ** The transfer list *)

(** A command as the parser builds it: [(cmd, range_set)]. *)
Definition command : Type := string * list (Z * Z).

Definition is_transfer_cmd (cmd : string) : bool :=
  bool_decide (cmd ∈ ["erase"; "new"; "zero"]).

(** The loop [for j in range(0, len(ranges), 2)] of [parse_transfer_list]:
    a pair that is not two integers is logged and left out. *)
Fixpoint parse_pairs (line : string) (ranges : list string)
    (range_set : list (Z * Z)) : M (list (Z * Z)) :=
  match ranges with
  | a :: b :: rest =>
      match Py.int a, Py.int b with
      | Some start, Some end_ =>
          parse_pairs line rest (range_set ++ [(start, end_)])
      | _, _ =>
          log_message ("Warning: Invalid range values in line: " +:+ line) ;;
          parse_pairs line rest range_set
      end
  | _ => mret range_set
  end.

(** The loop [for i in range(line_index, len(lines))]. *)
Fixpoint parse_lines (lines : list string) (commands : list command)
    : M (list command) :=
  match lines with
  | [] => mret commands
  | l :: rest =>
      let line := Py.strip l in
      if bool_decide (line = "") || Py.startswith "#" line
      then parse_lines rest commands
      else
        let parts := Py.split " " line in
        match parts with
        | cmd :: ranges_str :: _ =>
            if is_transfer_cmd cmd then
              let ranges := Py.split "," ranges_str in
              if bool_decide (Z.of_nat (length ranges) `mod` 2 ≠ 0) then
                log_message ("Warning: Invalid range format in line: " +:+ line) ;;
                parse_lines rest commands
              else
                range_set ← parse_pairs line ranges [];
                parse_lines rest (commands ++ [(cmd, range_set)])
            else parse_lines rest commands
        | _ => parse_lines rest commands
        end
  end.

(** The version line: [int], and for a line that [int] refuses a second
    [int] when [isdigit] holds, else version 1. *)
Definition parse_version (version_line : string) : M Z :=
  match Py.int version_line with
  | Some v => mret v
  | None =>
      if Py.isdigit version_line then
        match Py.int version_line with
        | Some v => mret v
        | None => raise (ValueError "invalid literal for int() with base 10")
        end
      else mret 1
  end.

(** Where the commands start: [line_index] after the header lines of the
    version are skipped, each only if there is a line to skip. *)
Definition first_command_line (version : Z) (lines : list string) : nat :=
  let line_index := 1%nat in
  if bool_decide (2 ≤ version) then
    let line_index :=
      if bool_decide (line_index < length lines)%nat
      then S line_index else line_index in
    let line_index :=
      if bool_decide (line_index < length lines)%nat
      then S line_index else line_index in
    if bool_decide (line_index < length lines)%nat
    then S line_index else line_index
  else line_index.

(** [parse_transfer_list], on what the file at [transfer_list_path] holds. *)
Definition parse_transfer_list (transfer_list : string) : M (list command) :=
  let lines := Py.readlines (Py.text_read transfer_list) in
  match lines with
  | [] => mret []
  | line0 :: _ =>
      version ← parse_version (Py.strip line0);
      parse_lines (drop (first_command_line version lines) lines) []
  end.

Definition block_size : Z := 4096.

(** [convert_img_to_dat], on the image; gives what it leaves in the files at
    [output_transfer_list] (written in text mode on platform [os]) and at
    [output_dat_path]. *)
Definition convert_img_to_dat (os : Py.platform) (img : bytes)
    : M (string * bytes) :=
  let img_size := Z.of_nat (length img) in
  let total_blocks := (img_size + block_size - 1) `div` block_size in
  let version := 4 in
  let f :=
    Py.str version +:+ LF
    +:+ Py.str total_blocks +:+ LF
    +:+ "0" +:+ LF
    +:+ "0" +:+ LF
    +:+ "new 0," +:+ Py.str total_blocks +:+ LF in
  log_message "IMG to DAT conversion completed" ;;
  mret (Py.text_write os f, img).

(** The maximal range end, as the first loop of [convert_dat_to_img]
    computes it. *)
Definition max_block_of (commands : list command) : Z :=
  foldl (λ (max_block : Z) '((cmd, ranges) : command),
           if is_transfer_cmd cmd then
             foldl (λ (max_block : Z) '((start, end_) : Z * Z),
                      if bool_decide (end_ > max_block) then end_ else max_block)
                   max_block ranges
           else max_block)
        0 commands.

(** [dat_file.read(block_size)] and the zero fill of a short block; [n]
    rounds of the loop [for _ in range(block_count)].  Returns what is left
    to read of the dat file. *)
Fixpoint copy_blocks (n : nat) (dat_file : bytes) : M bytes :=
  match n with
  | O => mret dat_file
  | S n' =>
      let block := take (Z.to_nat block_size) dat_file in
      let block :=
        if bool_decide (Z.of_nat (length block) < block_size)
        then block ++ replicate (Z.to_nat (block_size - Z.of_nat (length block))) x00
        else block in
      write block ;;
      copy_blocks n' (drop (Z.to_nat block_size) dat_file)
  end.

Fixpoint new_ranges (ranges : list (Z * Z)) (dat_file : bytes) : M bytes :=
  match ranges with
  | [] => mret dat_file
  | (start, end_) :: rest =>
      let block_count := end_ - start in
      seek (start * block_size) ;;
      dat_file ← copy_blocks (Z.to_nat block_count) dat_file;
      new_ranges rest dat_file
  end.

Fixpoint zero_ranges (ranges : list (Z * Z)) : M unit :=
  match ranges with
  | [] => mret ()
  | (start, end_) :: rest =>
      seek (start * block_size) ;;
      let zero_block := replicate (Z.to_nat ((end_ - start) * block_size)) x00 in
      write zero_block ;;
      zero_ranges rest
  end.

(** The loop [for cmd, ranges in commands] that writes the image. *)
Fixpoint apply_commands (commands : list command) (dat_file : bytes) : M unit :=
  match commands with
  | [] => mret ()
  | (cmd, ranges) :: rest =>
      get_cancel_requested ≫= λ cancel : bool,
      if cancel then raise (Exception "Conversion cancelled by user")
      else if bool_decide (cmd = "new") then
        dat_file ← new_ranges ranges dat_file;
        apply_commands rest dat_file
      else if bool_decide (cmd ∈ ["erase"; "zero"]) then
        zero_ranges ranges ;;
        apply_commands rest dat_file
      else apply_commands rest dat_file
  end.

(** The body of [convert_dat_to_img] once the commands are parsed. *)
Definition materialize (commands : list command) (dat : bytes) : M unit :=
  match commands with
  | [] => raise (Exception "No valid commands found in transfer list")
  | _ =>
      let max_block := max_block_of commands in
      open_wb ;;
      truncate (max_block * block_size) ;;
      apply_commands commands dat ;;
      log_message "DAT to IMG conversion completed"
  end.

(** [convert_dat_to_img], on what the transfer list and the dat file hold;
    the image is left in [output]. *)
Definition convert_dat_to_img (transfer_list : string) (dat : bytes) : M unit :=
  commands ← parse_transfer_list transfer_list;
  materialize commands dat.

(** A converter as [__init__] leaves it, with no output file yet. *)
Definition init : state := State false None [] None 0 [].

(** ** The OZIP container *)

(** The known keys, in the order of the source. *)
Definition KEYS : list string := [
  "d6eecf0ae5acd4e0e9fe522de7ce381e"; "d6eccf0ae5acd4e0e92e522de7c1381e";
  "d6dccf0ad5acd4e0292e522db7c1381e"; "d7dcce1ad4afdce2393e5161cbdc4321";
  "d7dbce2ad4addce1393e5521cbdc4321"; "d7dbce1ad4afdce1393e5121cbdc4321";
  "d4d2cd61d4afdce13b5e01221bd14d20"; "261cc7131d7c1481294e532db752381e";
  "1ca21e12271335ae33ab81b2a7b14622"; "d4d2ce11d4afdce13b3e0121cbdc4321";
  "1c4c1ea3a12531ae491b21bb31613c11"; "acaa1e12a71431ce4a1b21bba1c1c6a2";
  "D6EECF0AE5ACD4E0E9FE522DE7CE381E"; "D6ECCF0AE5ACD4E0E92E522DE7C1381E";
  "D6DCCF0AD5ACD4E0292E522DB7C1381E"; "D7DCCE1AD4AFDCE2393E5161CBDC4321";
  "D7DBCE2AD4ADDCE1393E5521CBDC4321"; "D7DBCE1AD4AFDCE1393E5121CBDC4321";
  "D4D2CD61D4AFDCE13B5E01221BD14D20"; "261CC7131D7C1481294E532DB752381E";
  "1CA21E12271335AE33AB81B2A7B14622"; "D4D2CE11D4AFDCE13B3E0121CBD14D20";
  "1C4C1EA3A12531AE491B21BB31613C11"; "1C4C1EA3A12531AE4A1B21BB31C13C21";
  "1C4A11A3A12513AE441B23BB31513121"; "1C4A11A3A12589AE441A23BB31517733";
  "1C4A11A3A22513AE541B53BB31513121"; "2442CE821A4F352E33AE81B22BC1462E";
  "14C2CD6214CFDC2733AE81B22BC1462C"; "1E38C1B72D522E29E0D4ACD50ACFDCD6";
  "12341EAAC4C123CE193556A1BBCC232D"; "2143DCCB21513E39E1DCAFD41ACEDBD7";
  "2D23CCBBA1563519CE23C1C4AA1E3412"; "172B3E14E46F3CE13E2B5121CBDC4321";
  "ACAA1E12A71431CE4A1B21BBA1C1C6A2"; "ACAC1E13A72531AE4A1B22BB31C1CC22";
  "1C4411A3A12533AE441B21BB31613C11"; "1C4416A8A42717AE441523B336513121";
  "55EEAA33112133AE441B23BB31513121"; "ACAC1E13A12531AE4A1B21BB31C13C21";
  "ACAC1E13A72431AE4A1B22BBA1C1C6A2"; "12CAC11211AAC3AEA2658690122C1E81";
  "1CA21E12271435AE331B81BBA7C14612"; "D1DACF24351CE428A9CE32ED87323216";
  "A1CC75115CAECB890E4A563CA1AC67C8"; "2132321EA2CA86621A11241ABA512722";
  "22A21E821743E5EE33AE81B227B1462E"
].

Definition hex_val (c : ascii) : option nat :=
  let n := Py.ord c in
  if bool_decide (48 ≤ n ≤ 57) then Some (Z.to_nat (n - 48))
  else if bool_decide (97 ≤ n ≤ 102) then Some (Z.to_nat (n - 87))
  else if bool_decide (65 ≤ n ≤ 70) then Some (Z.to_nat (n - 55))
  else None.

Fixpoint unhex_pairs (s : string) : option bytes :=
  match s with
  | EmptyString => Some []
  | String a (String b r) =>
      match hex_val a, hex_val b with
      | Some x, Some y => (bchr (16 * x + y) ::.) <$> unhex_pairs r
      | _, _ => None
      end
  | String _ EmptyString => None
  end.

(** [binascii.unhexlify] *)
Definition unhexlify (hexstr : string) : M bytes :=
  if bool_decide (Z.of_nat (String.length hexstr) `mod` 2 ≠ 0)
  then raise (binascii_Error "Odd-length string")
  else match unhex_pairs hexstr with
       | Some b => mret b
       | None => raise (binascii_Error "Non-hexadecimal digit found")
       end.

(** [Crypto.Util.Padding.pad(data_to_pad, block_size)] of PyCryptodome, with
    its default style, pkcs7: [padding_len] bytes of value [padding_len]. *)
Definition pad (data_to_pad : bytes) (block_size : nat) : bytes :=
  let padding_len := (block_size - length data_to_pad `mod` block_size)%nat in
  data_to_pad ++ replicate padding_len (bchr padding_len).

(** The step both cipher loops take before the cipher is called. *)
Definition pad_if_needed (chunk : bytes) : bytes :=
  if bool_decide (Z.of_nat (length chunk) `mod` 16 ≠ 0) then pad chunk 16
  else chunk.

Definition ozip_magic : bytes := String.list_byte_of_string "OPPOENCRYPT!".
Definition zip_magic : bytes := [x50; x4b; x03; x04].
Definition header_size : Z := 0x1050.

(** The header [encrypt_to_ozip] writes. *)
Definition ozip_header : bytes :=
  ozip_magic ++ replicate (Z.to_nat (0x1050 - 12)) x00.

(** The blocks of a byte string whose length is [16 * n]. *)
Fixpoint blocks16 (n : nat) (data : bytes) : list bytes :=
  match n with
  | O => []
  | S n' => take 16 data :: blocks16 n' (drop 16 data)
  end.

(** Electronic codebook: each block goes through [f] on its own. *)
Definition ecb (f : bytes → bytes) (data : bytes) : bytes :=
  mjoin (f <$> blocks16 (length data `div` 16) data).

Section Cipher.

(** AES on one block, from PyCryptodome: key, then a block of 16 bytes. *)
Variable aes_encrypt_block : bytes → bytes → bytes.
Variable aes_decrypt_block : bytes → bytes → bytes.

(** A cipher object of [AES.MODE_ECB]. *)
Record cipher := Cipher { cipher_key : bytes }.

(** [AES.new(key, AES.MODE_ECB)] *)
Definition AES_new (key : bytes) : M cipher :=
  record_aes_new key ;;
  if bool_decide (length key ∈ [16; 24; 32]%nat) then mret (Cipher key)
  else raise (ValueError "Incorrect AES key length").

Definition unaligned : exn :=
  ValueError "Data must be aligned to block boundary in ECB mode".

(** [cipher.encrypt(data)] and [cipher.decrypt(data)] *)
Definition cipher_encrypt (c : cipher) (data : bytes) : result bytes :=
  if bool_decide (Z.of_nat (length data) `mod` 16 ≠ 0) then Raise unaligned
  else Return (ecb (aes_encrypt_block (cipher_key c)) data).

Definition cipher_decrypt (c : cipher) (data : bytes) : result bytes :=
  if bool_decide (Z.of_nat (length data) `mod` 16 ≠ 0) then Raise unaligned
  else Return (ecb (aes_decrypt_block (cipher_key c)) data).

(** The loop [while bytes_decrypted < encrypted_size] of [decrypt_ozip];
    [f] is what is left to read of the OZIP file and [tmp_file] what the
    temporary file holds.  The loop reads [self.cancel_requested] and
    changes nothing of the state. *)
Equations? decrypt_chunks (st : state) (c : cipher) (f : bytes)
    (encrypted_size bytes_decrypted : Z) (tmp_file : bytes) : result bytes
    by wf (Z.to_nat (encrypted_size - bytes_decrypted)) lt :=
decrypt_chunks st c f encrypted_size bytes_decrypted tmp_file
    with decide (bytes_decrypted < encrypted_size) := {
  | right _ => Return tmp_file
  | left _ =>
      if cancel_requested st then Return tmp_file
      else
        let chunk_size := Z.min 0x4000 (encrypted_size - bytes_decrypted) in
        let chunk := take (Z.to_nat chunk_size) f in
        match chunk with
        | [] => Return tmp_file
        | _ =>
            match cipher_decrypt c (pad_if_needed chunk) with
            | Raise e => Raise e
            | Return decrypted =>
                decrypt_chunks st c (drop (Z.to_nat chunk_size) f)
                  encrypted_size (bytes_decrypted + chunk_size)
                  (tmp_file ++ decrypted)
            end
        end }.
Proof. all: lia. Qed.

(** One round of the loop [for key_hex in KEYS], from [try:] on.  [None]:
    the loop goes on with the next key; [Some b]: [decrypt_ozip] returns
    [b].  On success the temporary file is moved to the output path. *)
Definition try_key (ozip : bytes) (encrypted_size : Z) (key_hex : string)
    : M (option bool) :=
  try_except
    (key ← unhexlify key_hex;
     cipher ← AES_new key;
     let f := drop (Z.to_nat 0x1050) ozip in
     reading (λ st, decrypt_chunks st cipher f encrypted_size 0 [])
       ≫= λ tmp_file : bytes,
     get_cancel_requested ≫= λ cancel : bool,
     if cancel then mret (Some false)
     else
       let magic_bytes := take 4 tmp_file in
       if bool_decide (magic_bytes = zip_magic) then
         set_output (Some tmp_file) 0 ;;
         set_successful_key key_hex ;;
         log_message ("Successfully decrypted with key: " +:+ key_hex) ;;
         mret (Some true)
       else mret None)
    (λ e,
       log_message ("Failed with key " +:+ key_hex +:+ ": " +:+ exn_str e) ;;
       mret None).

(** The loop [for key_hex in KEYS] and the [raise] after it. *)
Fixpoint try_keys (ozip : bytes) (encrypted_size : Z) (keys : list string)
    : M bool :=
  match keys with
  | [] => raise (Exception "Failed to decrypt OZIP with any known key")
  | key_hex :: rest =>
      get_cancel_requested ≫= λ cancel : bool,
      if cancel then mret false
      else
        try_key ozip encrypted_size key_hex ≫= λ r : option bool,
        match r with
        | Some b => mret b
        | None => try_keys ozip encrypted_size rest
        end
  end.

(** [decrypt_ozip], on what the file at [ozip_path] holds; the decrypted
    archive is left in [output]. *)
Definition decrypt_ozip (ozip : bytes) : M bool :=
  let file_size := Z.of_nat (length ozip) in
  if bool_decide (file_size < 0x1050)
  then raise (Exception "OZIP file is too small to be valid")
  else
    let magic := take 12 ozip in
    let encrypted_size := file_size - 0x1050 in
    try_keys ozip encrypted_size KEYS.

(** The loop [while bytes_processed < zip_size] of [encrypt_to_ozip], for
    a chunk size [block_size]; [zip_file] is what is left to read of the
    archive.  Each encrypted block is written to the output file. *)
Equations? encrypt_chunks (c : cipher) (block_size : positive)
    (zip_file : bytes) (zip_size bytes_processed : Z) (st : state)
    : state * result unit
    by wf (Z.to_nat (zip_size - bytes_processed)) lt :=
encrypt_chunks c block_size zip_file zip_size bytes_processed st
    with decide (bytes_processed < zip_size) := {
  | right _ => (st, Return ())
  | left _ =>
      if cancel_requested st
      then (st, Raise (Exception "Conversion cancelled by user"))
      else
        let read_size := Z.min (Z.pos block_size) (zip_size - bytes_processed) in
        let block := take (Z.to_nat read_size) zip_file in
        match cipher_encrypt c (pad_if_needed block) with
        | Raise e => (st, Raise e)
        | Return encrypted_block =>
            match write encrypted_block st with
            | (st', Raise e) => (st', Raise e)
            | (st', Return _) =>
                encrypt_chunks c block_size (drop (Z.to_nat read_size) zip_file)
                  zip_size (bytes_processed + read_size) st'
            end
        end }.
Proof. all: lia. Qed.

(** [encrypt_to_ozip], on what the file at [zip_path] holds; the container
    is left in [output]. *)
Definition encrypt_to_ozip (zip : bytes) : M bool :=
  get_successful_key ≫= λ key_hex : option string,
  match key_hex with
  | None | Some EmptyString =>
      raise (Exception "No successful key found for encryption")
  | Some key_hex =>
      try_except
        (key ← unhexlify key_hex;
         cipher ← AES_new key;
         let header := ozip_header in
         let zip_size := Z.of_nat (length zip) in
         open_wb ;;
         write header ;;
         encrypt_chunks cipher 0x4000 zip zip_size 0 ;;
         log_message ("OZIP encryption completed with key: " +:+ key_hex) ;;
         mret true)
        (λ e,
           log_message ("Encryption failed with key " +:+ key_hex +:+ ": "
                        +:+ exn_str e) ;;
           raise e)
  end.

(** *** What the two loops are compared with *)

(** The bytes of a key given in hexadecimal. *)
Definition key_bytes (key_hex : string) : bytes :=
  default [] (unhex_pairs key_hex).

(** A key [unhexlify] and [AES.new] accept. *)
Definition valid_key (key_hex : string) : bool :=
  bool_decide (Z.of_nat (String.length key_hex) `mod` 2 = 0)
  && bool_decide (is_Some (unhex_pairs key_hex))
  && bool_decide (length (key_bytes key_hex) ∈ [16; 24; 32]%nat).

(** The body of the container, after the header of 0x1050 bytes. *)
Definition ozip_body (ozip : bytes) : bytes := drop (Z.to_nat 0x1050) ozip.

(** The body decrypted in one piece with a key. *)
Definition trial_plaintext (ozip : bytes) (key_hex : string) : bytes :=
  ecb (aes_decrypt_block (key_bytes key_hex)) (pad_if_needed (ozip_body ozip)).

(** The key passes the check of the first four bytes. *)
Definition validates (ozip : bytes) (key_hex : string) : Prop :=
  take 4 (trial_plaintext ozip key_hex) = zip_magic.

Global Instance validates_dec ozip key_hex : Decision (validates ozip key_hex).
Proof. unfold validates. apply _. Defined.

(** The state [decrypt_ozip] leaves when the key validates. *)
Definition decrypted_state (key_hex : string) (tmp_file : bytes) (st : state)
    : state :=
  with_messages ["Successfully decrypted with key: " +:+ key_hex]
    (with_successful_key key_hex
       (with_output (Some tmp_file) 0
          (with_aes_new [key_bytes key_hex] st))).

(** The reference for [encrypt_chunks]: the whole archive read, padded and
    encrypted as a single chunk, then written. *)
Definition encrypt_single_chunk (c : cipher) (zip_file : bytes) : M unit :=
  λ st,
    match cipher_encrypt c (pad_if_needed zip_file) with
    | Raise e => (st, Raise e)
    | Return encrypted_block => write encrypted_block st
    end.

End Cipher.

(** ** The message queue, cancellation and the search for a file *)

Definition with_queue (q : list string) (st : state) : state :=
  State (cancel_requested st) (successful_key st) q (output st) (position st)
    (aes_new_calls st).

Definition with_cancel (b : bool) (st : state) : state :=
  State b (successful_key st) (message_queue st) (output st) (position st)
    (aes_new_calls st).

(** The loop [while not self.queue.empty()] of [ThreadSafeQueue.get_all],
    on what the queue holds, oldest message first: [get_nowait] takes the
    oldest message.  (The branch for [queue.Empty] is not reached when the
    consumer is the only one to take messages.)  Returns what is left in
    the queue and the messages taken. *)
Fixpoint get_all_loop (queue messages : list string)
    : list string * list string :=
  match queue with
  | [] => (queue, messages)
  | message :: queue' => get_all_loop queue' (messages ++ [message])
  end.

(** [ThreadSafeQueue.get_all], on [self.message_queue] *)
Definition get_all : M (list string) := λ st,
  let '(queue, messages) := get_all_loop (message_queue st) [] in
  (with_queue queue st, Return messages).

(** [cancel_conversion] *)
Definition cancel_conversion : M unit :=
  (λ st, (with_cancel true st, Return ())) ;;
  log_message "Cancellation requested...".

(** A directory as [os.walk] finds it: the names of its files and its
    sub-directories by name, both in the order of the listing. *)
Unset Elimination Schemes.
Inductive directory :=
| Directory (files : list string) (dirs : list (string * directory)).
Set Elimination Schemes.

Section Walk.

(** [os.path.join] *)
Variable join : string → string → string.

(** [os.walk(top)], top-down: the directory itself, then each
    sub-directory in turn. *)
Fixpoint walk (top : string) (d : directory)
    : list (string * list string * list string) :=
  match d with
  | Directory files dirs =>
      (top, fst <$> dirs, files)
      :: (fix walk_dirs (l : list (string * directory)) :=
            match l with
            | [] => []
            | (name, sub) :: l' => walk (join top name) sub ++ walk_dirs l'
            end) dirs
  end.

(** The loop [for root, dirs, files in os.walk(directory)] of
    [find_file]. *)
Fixpoint find_in (entries : list (string * list string * list string))
    (filename : string) : option string :=
  match entries with
  | [] => None
  | (root, dirs, files) :: rest =>
      if bool_decide (filename ∈ files) then Some (join root filename)
      else find_in rest filename
  end.

(** [find_file], on the tree at [directory]; [None] as in the source. *)
Definition find_file (top : string) (d : directory) (filename : string)
    : option string :=
  find_in (walk top d) filename.

(** The file [filename] is in the tree: [path] is the path [os.walk]
    forms for the directory that lists it, joined with the name. *)
Inductive located : string → directory → string → string → Prop :=
| located_here top files dirs filename :
    filename ∈ files →
    located top (Directory files dirs) filename (join top filename)
| located_below top files dirs name sub filename path :
    (name, sub) ∈ dirs →
    located (join top name) sub filename path →
    located top (Directory files dirs) filename path.

End Walk.

(** * Definitions for the statements *)

(** The characters of a decimal numeral. *)
Definition is_digit (c : ascii) : bool := bool_decide (is_Some (Py.digit_val c)).

(** The value of a numeral, most significant digit first. *)
Fixpoint digits_value (acc : Z) (d : string) : Z :=
  match d with
  | EmptyString => acc
  | String c d' => digits_value (acc * 10 + default 0 (Py.digit_val c)) d'
  end.

(** The text written for [total_blocks] blocks, before the line ends are
    translated. *)
Definition transfer_text (total_blocks : Z) : string :=
  "4" +:+ LF +:+ Py.str total_blocks +:+ LF +:+ "0" +:+ LF +:+ "0" +:+ LF
  +:+ "new 0," +:+ Py.str total_blocks +:+ LF.

Definition nonint_document : string :=
  "4" +:+ LF +:+ "1" +:+ LF +:+ "0" +:+ LF +:+ "0" +:+ LF
  +:+ "new 0,x" +:+ LF +:+ "new 0,4" +:+ LF.

Definition odd_document : string :=
  "4" +:+ LF +:+ "1" +:+ LF +:+ "0" +:+ LF +:+ "0" +:+ LF
  +:+ "new 0,1,2" +:+ LF +:+ "new 0,4" +:+ LF.

Definition no_command_document : string :=
  "1" +:+ LF +:+ "# comment" +:+ LF +:+ LF +:+ "move 1,2" +:+ LF
  +:+ "new 0,1,2" +:+ LF.

Inductive op_kind := New | Zero.

Global Instance op_kind_eq_dec : EqDecision op_kind.
Proof. solve_decision. Defined.

(** One range of one command: its kind and its two ends, in blocks. *)
Definition range_op : Type := op_kind * Z * Z.

Definition ops_of_command (c : command) : list range_op :=
  if bool_decide (c.1 = "new") then (λ r, (New, r.1, r.2)) <$> c.2
  else if bool_decide (c.1 ∈ ["erase"; "zero"]) then (λ r, (Zero, r.1, r.2)) <$> c.2
  else [].

(** The ranges of a document, in document order. *)
Definition ops_of (commands : list command) : list range_op :=
  commands ≫= ops_of_command.


(** The blocks a range takes from the source. *)
Definition blocks_read (op : range_op) : nat :=
  match op.1.1 with
  | New => Z.to_nat (op.2 - op.1.2)
  | Zero => 0
  end.

(** The bytes of the source read before a range, given the ranges before it. *)
Definition consumed (pre : list range_op) : nat :=
  foldr (λ op k, (blocks_read op * Z.to_nat block_size + k)%nat) 0%nat pre.


(** The maximal range end of a document, 0 if it has no range. *)
Definition extent (commands : list command) : Z :=
  foldr (λ op m, Z.max op.2 m) 0 (ops_of commands).

(** The effect of one range on the image and on what is left of the
    source. *)
Definition apply_op (f : bytes * bytes) (op : range_op) : bytes * bytes :=
  let offset := Z.to_nat (op.1.2 * block_size) in
  match op.1.1 with
  | New =>
      let n := (Z.to_nat (op.2 - op.1.2) * Z.to_nat block_size)%nat in
      (write_at offset (resize n x00 f.2) f.1, drop n f.2)
  | Zero =>
      (write_at offset (replicate (Z.to_nat ((op.2 - op.1.2) * block_size)) x00) f.1,
       f.2)
  end.


(** The bytes a range writes, as a write at its offset. *)
Definition op_data (dat : bytes) (op : range_op) : bytes :=
  match op.1.1 with
  | New => resize (Z.to_nat ((op.2 - op.1.2) * block_size)) x00 dat
  | Zero => replicate (Z.to_nat ((op.2 - op.1.2) * block_size)) x00
  end.

(** The extent filled with zero bytes, then every range in document order. *)
Definition image_of (commands : list command) (dat : bytes) : bytes :=
  (foldl apply_op
     (replicate (Z.to_nat (extent commands * block_size)) x00, dat)
     (ops_of commands)).1.

(** Every range of the document starts at a block at or after 0. *)
Definition starts_nonneg (commands : list command) : Prop :=
  Forall (λ op : range_op, 0 ≤ op.1.2) (ops_of commands).

(** The offsets a file object takes are below 2^63: from there on
    [truncate] and [seek] raise instead of returning. *)
Definition max_offset : Z := 2 ^ 63.

(** Every range of the document starts at a block at or after 0, at an
    offset a file object takes. *)
Definition starts_in_reach (commands : list command) : Prop :=
  Forall (λ op : range_op, 0 ≤ op.1.2 ∧ op.1.2 * block_size < max_offset)
    (ops_of commands).

(** The ranges start within reach, and so does the image end. *)
Definition in_reach (commands : list command) : Prop :=
  extent commands * block_size < max_offset ∧ starts_in_reach commands.

(** The overlap example: [new 0,2] then [zero 0,1], with two source blocks. *)
Definition overlap_document : string :=
  "1" +:+ LF +:+ "new 0,2" +:+ LF +:+ "zero 0,1" +:+ LF.

Definition overlap_dat : bytes :=
  replicate (Z.to_nat 4096) x01 ++ replicate (Z.to_nat 4096) x02.



(** The truncated-source example: [new 0,4] with two source blocks. *)
Definition truncated_document : string := "1" +:+ LF +:+ "new 0,4" +:+ LF.

Definition truncated_dat : bytes := replicate (Z.to_nat 8192) x01.

Definition roundtrip_image : bytes :=
  replicate (Z.to_nat 4096) x01 ++ replicate (Z.to_nat 4096) x02.

(** A cipher that leaves every block as it is, so that the output shows
    what the cipher was given. *)
Definition plain_block (key block : bytes) : bytes := block.

(** A cipher that is its own inverse: the key added to the block bit by
    bit. *)
Definition xor_byte (a b : byte) : byte :=
  bchr (N.to_nat (N.lxor (Byte.to_N a) (Byte.to_N b))).

Definition xor_block (key block : bytes) : bytes := zip_with xor_byte block key.

(** The chunk extended with zero bytes to the next multiple of 16. *)
Definition zero_extend (chunk : bytes) : bytes :=
  chunk ++ replicate ((16 - length chunk `mod` 16) `mod` 16) x00.

Definition third_key : string := "d6dccf0ad5acd4e0292e522db7c1381e".

(** A container whose body is an archive signature encrypted with the
    third key. *)
Definition third_key_ozip : bytes :=
  ozip_header
  ++ xor_block (key_bytes third_key) (zip_magic ++ replicate 12 x00).

(** The state once the output file is opened. *)
Definition opened : state := with_output (Some []) 0 init.

Definition sample_archive : bytes :=
  replicate 16 x01 ++ replicate 16 x02 ++ replicate 8 x03.

(** The number of zero bytes that bring a length to the next multiple of
    4096. *)
Definition block_fill (len : nat) : nat :=
  Z.to_nat ((- Z.of_nat len) `mod` block_size).

Definition no_range_document : string := "1" +:+ LF +:+ "new 0,x" +:+ LF.

Definition negative_start_document : string :=
  "1" +:+ LF +:+ "zero 0,1" +:+ LF +:+ "new 1,2,-1,3" +:+ LF.

(** The commands and the warnings of some lines, read off a run with no
    command yet and an empty queue. *)
Definition parsed (lines : list string) : list command :=
  match (parse_lines lines [] init).2 with
  | Return commands => commands
  | Raise _ => []
  end.

Definition warnings (lines : list string) : list string :=
  message_queue (parse_lines lines [] init).1.

(** The version line is refused: [int] raises on it, and [isdigit] holds
    of it, so that the second [int] raises outside of any handler. *)
Definition refused_version (transfer_list : string) : Prop :=
  match Py.readlines (Py.text_read transfer_list) with
  | line0 :: _ =>
      Py.int (Py.strip line0) = None ∧ Py.isdigit (Py.strip line0) = true
  | [] => False
  end.

Global Instance refused_version_dec transfer_list :
  Decision (refused_version transfer_list).
Proof. unfold refused_version. destruct (Py.readlines _); apply _. Defined.

(** [sys.int_info.default_max_str_digits]: [int] refuses a numeral of
    more digits. *)
Definition max_str_digits : Z := 4300.

(** The first line of the text, empty when the text has no line. *)
Definition version_line (transfer_list : string) : string :=
  default "" (head (Py.readlines (Py.text_read transfer_list))).

(** A first line made of superscript digits. *)
Definition superscript_document : string :=
  String (ascii_of_nat 178) "" +:+ LF +:+ "new 0,1" +:+ LF.

(** The string holds neither a line feed nor a carriage return. *)
Definition no_line_break (s : string) : bool :=
  Py.all_chars
    (λ c, bool_decide (c ≠ "010"%char) && bool_decide (c ≠ "013"%char)) s.

(** The numbers of some ranges, as a command line lists them. *)
Definition numbers (ranges : list (Z * Z)) : list string :=
  ranges ≫= λ r, [Py.str r.1; Py.str r.2].

Fixpoint join_comma (l : list string) : string :=
  match l with
  | [] => ""
  | [a] => a
  | a :: rest => a +:+ "," +:+ join_comma rest
  end.

(** The lines of some commands: the command, a space, the numbers of its
    ranges with commas between them, a line feed. *)
Fixpoint show_commands (commands : list command) : string :=
  match commands with
  | [] => ""
  | (cmd, ranges) :: rest =>
      (cmd +:+ " " +:+ join_comma (numbers ranges)) +:+ LF
      +:+ show_commands rest
  end.

(** A character that is no blank and no comma. *)
Definition is_plain (c : ascii) : bool :=
  negb (Py.isspace c) && bool_decide (c ≠ ","%char).

(** The ends of the ranges have at most 4300 digits, so that [int] reads
    them. *)
Definition readable (ranges : list (Z * Z)) : Prop :=
  Forall (λ r : Z * Z,
            Z.abs r.1 < 10 ^ max_str_digits ∧ Z.abs r.2 < 10 ^ max_str_digits)
    ranges.

(** What [encrypt_to_ozip] writes for an archive and a key. *)
Definition encrypted_container (aes_encrypt_block : bytes → bytes → bytes)
    (key_hex : string) (zip : bytes) : bytes :=
  ozip_header
  ++ ecb (aes_encrypt_block (key_bytes key_hex)) (pad_if_needed zip).

(** The state of a converter whose decryption stored the third key. *)
Definition third_key_stored : state := with_successful_key third_key init.

Definition all_bytes : bytes := bchr <$> seq 0 256.

(** An archive with the ZIP signature whose length is no multiple of 16. *)
Definition signed_archive : bytes := zip_magic ++ replicate 20 x07.

(** Some messages logged one after the other. *)
Definition log_all (messages : list string) : M unit :=
  foldr (λ message rest, log_message message ;; rest) (mret ()) messages.

(** A tree with the wanted name in two directories. *)
Definition sample_tree : directory :=
  Directory ["boot.img"]
    [("META-INF", Directory ["system.transfer.list"] []);
     ("firmware", Directory ["system.transfer.list"; "system.new.dat.br"] [])].

(** [os.path.join] of POSIX, for a directory path that does not end with
    a slash and a plain name. *)
Definition slash_join (a b : string) : string := a +:+ "/" +:+ b.

(** A container whose body is the archive signature encrypted with the
    third key, and three bytes more. *)
Definition ragged_ozip : bytes := third_key_ozip ++ [x01; x02; x03].

(** * Lemmas and theorems *)

(** * Proofs *)

(** ** Strings *)

Lemma app_cons (c : ascii) (s t : string) : String c s +:+ t = String c (s +:+ t).
Proof. done. Qed.

Lemma app_empty_r (s : string) : s +:+ "" = s.
Proof. induction s as [|c s IH]; [done|]. by rewrite app_cons, IH. Qed.

Lemma app_assoc_str (s t u : string) : (s +:+ t) +:+ u = s +:+ t +:+ u.
Proof. induction s as [|c s IH]; [done|]. by rewrite !app_cons, IH. Qed.

Lemma all_chars_app p (s t : string) :
  Py.all_chars p (s +:+ t) = Py.all_chars p s && Py.all_chars p t.
Proof.
  induction s as [|c s IH]; [done|].
  rewrite app_cons. cbn. rewrite IH. by rewrite andb_assoc.
Qed.

Lemma all_chars_impl (p q : ascii → bool) (s : string) :
  (∀ c, p c = true → q c = true) →
  Py.all_chars p s = true → Py.all_chars q s = true.
Proof.
  intros Hpq. induction s as [|c s IH]; [done|]. cbn.
  intros [Hc Hs]%andb_true_iff. rewrite (Hpq _ Hc). cbn. auto.
Qed.

Lemma is_digit_ord c : is_digit c = true ↔ 48 ≤ Py.ord c ≤ 57.
Proof.
  unfold is_digit, Py.digit_val. rewrite bool_decide_eq_true.
  case_bool_decide; split; done.
Qed.

Lemma ord_inj c1 c2 : Py.ord c1 = Py.ord c2 → c1 = c2.
Proof.
  unfold Py.ord. intros H%(inj Z.of_N).
  by rewrite <-(ascii_N_embedding c1), <-(ascii_N_embedding c2), H.
Qed.

Lemma ord_ne c1 c2 : Py.ord c1 ≠ Py.ord c2 → c1 ≠ c2.
Proof. by intros ? ->. Qed.

(** A digit is no blank, separator, sign, underscore or line end. *)
Lemma is_digit_plain c :
  is_digit c = true →
  Py.isspace c = false ∧ Py.int_space c = false
  ∧ c ≠ " "%char ∧ c ≠ ","%char ∧ c ≠ "+"%char ∧ c ≠ "-"%char
  ∧ c ≠ "_"%char ∧ c ≠ "010"%char ∧ c ≠ "013"%char ∧ c ≠ "#"%char.
Proof.
  intros H%is_digit_ord. unfold Py.isspace, Py.int_space.
  repeat split; try (apply ord_ne; change (Py.ord _) with (Py.ord c) at 1;
    vm_compute (Py.ord (Ascii _ _ _ _ _ _ _ _)); lia).
  all: repeat (rewrite orb_false_iff; split); apply bool_decide_eq_false; lia.
Qed.

Lemma digits_value_snoc acc d c :
  digits_value acc (d +:+ String c "")
  = digits_value acc d * 10 + default 0 (Py.digit_val c).
Proof. revert acc. induction d as [|a d IH]; intros acc; [done|]. cbn. apply IH. Qed.

Lemma pretty_N_char_digit (x : N) :
  (x < 10)%N →
  is_digit (pretty_N_char x) = true
  ∧ Py.digit_val (pretty_N_char x) = Some (Z.of_N x).
Proof.
  intros Hx.
  assert (x ∈ [0;1;2;3;4;5;6;7;8;9]%N) as Hin.
  { rewrite !elem_of_cons. lia. }
  rewrite !elem_of_cons, elem_of_nil in Hin.
  destruct Hin as [->|[->|[->|[->|[->|[->|[->|[->|[->|[->|[]]]]]]]]]]]; done.
Qed.

(** What [pretty_N_go] puts before its accumulator: the digits of [x]. *)
Lemma pretty_N_go_digits (x : N) (s : string) :
  ∃ d, pretty_N_go x s = d +:+ s
       ∧ Py.all_chars is_digit d = true
       ∧ digits_value 0 d = Z.of_N x
       ∧ ((0 < x)%N → d ≠ "").
Proof.
  revert s. induction (N.lt_wf_0 x) as [x _ IH]; intros s.
  destruct (decide (0 < x)%N) as [Hx|Hx].
  - rewrite pretty_N_go_step by done.
    destruct (IH (x `div` 10)%N) with (s := String (pretty_N_char (x `mod` 10)) s)
      as (d & -> & Hd & Hv & _).
    { by apply N.div_lt. }
    assert (x `mod` 10 < 10)%N as Hm by (by apply N.mod_lt).
    destruct (pretty_N_char_digit _ Hm) as [Hc Hcv].
    exists (d +:+ String (pretty_N_char (x `mod` 10)) ""). split_and!.
    + by rewrite app_assoc_str.
    + rewrite all_chars_app, Hd. cbn. by rewrite Hc.
    + rewrite digits_value_snoc, Hv, Hcv. cbn.
      rewrite (N.div_mod x 10) at 3 by done. lia.
    + intros _. by destruct d.
  - assert (x = 0%N) as -> by lia. exists "". by rewrite pretty_N_go_0.
Qed.

(** [str(n)] of a natural number is a non-empty string of digits that
    denotes [n]. *)
Lemma str_digits (n : Z) :
  0 ≤ n →
  Py.str n ≠ "" ∧ Py.all_chars is_digit (Py.str n) = true
  ∧ digits_value 0 (Py.str n) = n.
Proof.
  intros Hn. unfold Py.str, pretty, pretty_Z.
  destruct n as [|p|p]; [done| |lia].
  unfold pretty, pretty_positive, pretty, pretty_N. case_decide; [done|].
  destruct (pretty_N_go_digits (N.pos p) "") as (d & -> & Hd & Hv & Hne).
  rewrite app_empty_r. split_and!; [by apply Hne|done|by rewrite Hv].
Qed.

Lemma scan_digits_all (acc : Z) (d : string) :
  Py.all_chars is_digit d = true →
  Py.scan_digits acc false d = Some (digits_value acc d, "").
Proof.
  revert acc. induction d as [|c d IH]; intros acc; [done|]. cbn.
  intros [Hc Hd]%andb_true_iff.
  apply bool_decide_eq_true in Hc as [v Hv]. rewrite Hv. cbn. by apply IH.
Qed.

(** [int] reads a numeral back. *)
Lemma int_digits (d : string) :
  d ≠ "" → Py.all_chars is_digit d = true → Py.int d = Some (digits_value 0 d).
Proof.
  intros Hne Hd. destruct d as [|c d]; [done|].
  pose proof Hd as [Hc _]%andb_true_iff.
  destruct (is_digit_plain c Hc) as (_ & Hsp & _ & _ & Hplus & Hminus & _).
  unfold Py.int. cbn [Py.lstrip_with]. rewrite Hsp.
  rewrite !decide_False by done.
  apply bool_decide_eq_true in Hc. destruct (is_Some_dec _) as [_|[]]; [|done].
  rewrite scan_digits_all by done. cbn. f_equal. lia.
Qed.

Lemma int_str (n : Z) : 0 ≤ n → Py.int (Py.str n) = Some n.
Proof.
  intros Hn. destruct (str_digits n Hn) as (Hne & Hd & Hv).
  by rewrite int_digits, Hv.
Qed.

Lemma rstrip_LF (s : string) : Py.rstrip (s +:+ LF) = Py.rstrip s.
Proof.
  induction s as [|c s IH]; [done|]. rewrite app_cons. cbn. by rewrite IH.
Qed.

Lemma rstrip_digits (d : string) :
  Py.all_chars is_digit d = true → Py.rstrip d = d.
Proof.
  induction d as [|c d IH]; [done|]. cbn. intros [Hc Hd]%andb_true_iff.
  rewrite IH by done. destruct (is_digit_plain c Hc) as (-> & _). by destruct d.
Qed.

Lemma rstrip_app_digits (s d : string) :
  d ≠ "" → Py.all_chars is_digit d = true → Py.rstrip (s +:+ d) = s +:+ d.
Proof.
  intros Hne Hd. induction s as [|c s IH]; [by apply rstrip_digits|].
  rewrite app_cons. cbn. rewrite IH. destruct (s +:+ d) eqn:E; [|done].
  by destruct s, d.
Qed.

Lemma lstrip_digits (d : string) :
  Py.all_chars is_digit d = true → Py.lstrip_with Py.isspace d = d.
Proof.
  destruct d as [|c d]; [done|]. cbn. intros [Hc _]%andb_true_iff.
  by destruct (is_digit_plain c Hc) as (-> & _).
Qed.

(** A line that is a numeral: [strip] takes the line end off. *)
Lemma strip_digits_LF (d : string) :
  Py.all_chars is_digit d = true → Py.strip (d +:+ LF) = d.
Proof.
  intros Hd. unfold Py.strip.
  destruct d as [|c d]; [done|].
  rewrite app_cons. cbn [Py.lstrip_with].
  pose proof Hd as [Hc _]%andb_true_iff.
  destruct (is_digit_plain c Hc) as (-> & _).
  by rewrite <-app_cons, rstrip_LF, rstrip_digits.
Qed.

Lemma split_no_sep (sep : ascii) (s : string) :
  Py.all_chars (λ c, bool_decide (c ≠ sep)) s = true → Py.split sep s = [s].
Proof.
  induction s as [|c s IH]; [done|]. cbn. intros [Hc Hs]%andb_true_iff.
  apply bool_decide_eq_true in Hc. rewrite decide_False by done.
  by rewrite IH.
Qed.

Lemma digits_no (sep : ascii) (d : string) :
  is_digit sep = false →
  Py.all_chars is_digit d = true →
  Py.all_chars (λ c, bool_decide (c ≠ sep)) d = true.
Proof.
  intros Hsep. apply all_chars_impl. intros c Hc.
  apply bool_decide_eq_true. intros ->. congruence.
Qed.

Lemma readlines_line (l rest : string) :
  Py.all_chars (λ c, bool_decide (c ≠ "010"%char)) l = true →
  Py.readlines (l +:+ LF +:+ rest) = (l +:+ LF) :: Py.readlines rest.
Proof.
  induction l as [|c l IH]; [done|]. rewrite !app_cons. cbn.
  intros [Hc Hl]%andb_true_iff. apply bool_decide_eq_true in Hc.
  rewrite decide_False by done. by rewrite IH.
Qed.

(** What is written in text mode is read back in text mode as it was, on
    both platforms, when it holds no carriage return. *)
Lemma text_read_write (os : Py.platform) (s : string) :
  Py.all_chars (λ c, bool_decide (c ≠ "013"%char)) s = true →
  Py.text_read (Py.text_write os s) = s.
Proof.
  induction s as [|c s IH]; [done|]. cbn.
  intros [Hc Hs]%andb_true_iff. apply bool_decide_eq_true in Hc.
  destruct (decide (c = "010"%char)) as [->|Hn].
  - destruct os; unfold Py.linesep;
      rewrite !app_cons; change ("" +:+ ?t) with t; cbn; by rewrite IH.
  - cbn. rewrite decide_False by done. by rewrite IH.
Qed.

(** ** The state monad *)

Lemma bind_run {A B} (m : M A) (f : A → M B) (st : state) :
  (m ≫= f) st
  = match m st with
    | (st', Return a) => f a st'
    | (st', Raise e) => (st', Raise e)
    end.
Proof. done. Qed.

Lemma with_messages_nil st : with_messages [] st = st.
Proof. destruct st. unfold with_messages. cbn. by rewrite app_nil_r. Qed.

Lemma with_messages_app l1 l2 st :
  with_messages l2 (with_messages l1 st) = with_messages (l1 ++ l2) st.
Proof. unfold with_messages. cbn. by rewrite app_assoc. Qed.

Lemma with_output_twice f1 p1 f2 p2 st :
  with_output f2 p2 (with_output f1 p1 st) = with_output f2 p2 st.
Proof. done. Qed.

Lemma with_output_id st : with_output (output st) (position st) st = st.
Proof. by destruct st. Qed.

Lemma output_with_output f p st : output (with_output f p st) = f.
Proof. done. Qed.
Lemma position_with_output f p st : position (with_output f p st) = p.
Proof. done. Qed.
Lemma cancel_with_output f p st :
  cancel_requested (with_output f p st) = cancel_requested st.
Proof. done. Qed.
Lemma output_with_messages msgs st : output (with_messages msgs st) = output st.
Proof. done. Qed.
Lemma cancel_with_messages msgs st :
  cancel_requested (with_messages msgs st) = cancel_requested st.
Proof. done. Qed.

Create Rewrite HintDb state_proj.
#[global] Hint Rewrite output_with_output position_with_output
  cancel_with_output output_with_messages cancel_with_messages
  with_output_twice : state_proj.

(** ** Parsing never fails on a command line, and only logs *)

Lemma parse_pairs_logs line ranges range_set st :
  ∃ msgs rs, parse_pairs line ranges range_set st
             = (with_messages msgs st, Return rs).
Proof.
  cut (∀ ranges,
    (∀ range_set st, ∃ msgs rs, parse_pairs line ranges range_set st
                                = (with_messages msgs st, Return rs))
    ∧ (∀ a range_set st, ∃ msgs rs, parse_pairs line (a :: ranges) range_set st
                                    = (with_messages msgs st, Return rs))).
  { intros H. apply H. }
  clear. intros ranges. induction ranges as [|b rest [IH1 IH2]].
  - split; intros; exists [], range_set; by rewrite with_messages_nil.
  - split; [intros; apply IH2|]. intros a range_set st. cbn.
    destruct (Py.int a) as [start|], (Py.int b) as [end_|];
      try apply IH1.
    all: rewrite bind_run; cbn;
      destruct (IH1 range_set (with_messages
        ["Warning: Invalid range values in line: " +:+ line] st))
        as (msgs & rs & ->);
      rewrite with_messages_app; by eexists _, _.
Qed.

Lemma parse_lines_logs lines commands st :
  ∃ msgs cs, parse_lines lines commands st = (with_messages msgs st, Return cs).
Proof.
  revert commands st. induction lines as [|l rest IH]; intros commands st.
  { exists [], commands. by rewrite with_messages_nil. }
  cbn. destruct (_ || _); [apply IH|].
  destruct (Py.split " " (Py.strip l)) as [|cmd [|ranges_str parts]];
    [apply IH..|].
  destruct (is_transfer_cmd cmd); [|apply IH].
  case_bool_decide.
  - rewrite bind_run. cbn.
    destruct (IH commands (with_messages
      ["Warning: Invalid range format in line: " +:+ Py.strip l] st))
      as (msgs & cs & ->).
    rewrite with_messages_app. by eexists _, _.
  - rewrite bind_run.
    destruct (parse_pairs_logs (Py.strip l) (Py.split "," ranges_str) [] st)
      as (msgs1 & rs & ->).
    destruct (IH (commands ++ [(cmd, rs)]) (with_messages msgs1 st))
      as (msgs2 & cs & ->).
    rewrite with_messages_app. by eexists _, _.
Qed.

Lemma parse_transfer_list_logs transfer_list st :
  ∃ msgs r, parse_transfer_list transfer_list st = (with_messages msgs st, r).
Proof.
  unfold parse_transfer_list.
  destruct (Py.readlines _) as [|line0 lines] eqn:E.
  { exists [], (Return []). by rewrite with_messages_nil. }
  rewrite bind_run. unfold parse_version.
  destruct (Py.int (Py.strip line0)) as [v|] eqn:Ev; cbn.
  - destruct (parse_lines_logs
      (drop (first_command_line v (line0 :: lines)) (line0 :: lines)) [] st)
      as (m & c & H). rewrite H. by eexists _, _.
  - destruct (Py.isdigit _).
    + exists [], (Raise (ValueError "invalid literal for int() with base 10")).
      by rewrite with_messages_nil.
    + cbn. destruct (parse_lines_logs
        (drop (first_command_line 1 (line0 :: lines)) (line0 :: lines)) [] st)
        as (m & c & H). rewrite H. by eexists _, _.
Qed.

(** ** The transfer list [convert_img_to_dat] writes *)

Lemma convert_img_to_dat_run os img st :
  convert_img_to_dat os img st
  = (with_messages ["IMG to DAT conversion completed"] st,
     Return (Py.text_write os
               (transfer_text ((Z.of_nat (length img) + block_size - 1)
                               `div` block_size)), img)).
Proof. done. Qed.

Lemma total_blocks_ceil (size : Z) :
  0 ≤ size →
  let total_blocks := (size + block_size - 1) `div` block_size in
  0 ≤ total_blocks
  ∧ (total_blocks - 1) * block_size < size ≤ total_blocks * block_size.
Proof.
  intros Hs total_blocks. subst total_blocks. unfold block_size.
  Z.div_mod_to_equations. lia.
Qed.

Lemma transfer_text_no_CR n :
  0 ≤ n →
  Py.all_chars (λ c, bool_decide (c ≠ "013"%char)) (transfer_text n) = true.
Proof.
  intros Hn. destruct (str_digits n Hn) as (_ & Hd & _).
  unfold transfer_text. rewrite !all_chars_app.
  by rewrite (digits_no "013" _ eq_refl Hd).
Qed.

Lemma transfer_text_lines n :
  0 ≤ n →
  Py.readlines (transfer_text n)
  = ["4" +:+ LF; Py.str n +:+ LF; "0" +:+ LF; "0" +:+ LF;
     "new 0," +:+ Py.str n +:+ LF].
Proof.
  intros Hn. destruct (str_digits n Hn) as (_ & Hd & _).
  pose proof (digits_no "010" _ eq_refl Hd) as Hd'.
  unfold transfer_text.
  rewrite (readlines_line "4") by done. f_equal.
  rewrite readlines_line by done. f_equal.
  rewrite (readlines_line "0") by done. f_equal.
  rewrite (readlines_line "0") by done. f_equal.
  assert ("new 0," +:+ Py.str n +:+ LF
          = ("new 0," +:+ Py.str n) +:+ LF +:+ "") as ->.
  { by rewrite app_empty_r, app_assoc_str. }
  rewrite readlines_line by (by rewrite all_chars_app, Hd').
  by rewrite app_empty_r.
Qed.

(** C8: for an image of any length, [convert_img_to_dat] leaves the image
    itself as the dat file and a transfer list of exactly five lines: the
    header lines 4, [total_blocks], 0 and 0, then the one command
    [new 0,total_blocks], where [total_blocks] is the length divided by
    4096, rounded up. *)
Theorem convert_img_to_dat_writes_header_and_one_new
    (os : Py.platform) (img : bytes) (st : state) :
  ∃ total_blocks f,
    convert_img_to_dat os img st
    = (with_messages ["IMG to DAT conversion completed"] st, Return (f, img))
    ∧ (total_blocks - 1) * 4096 < Z.of_nat (length img) ≤ total_blocks * 4096
    ∧ Py.readlines (Py.text_read f)
      = ["4" +:+ LF; Py.str total_blocks +:+ LF; "0" +:+ LF; "0" +:+ LF;
         "new 0," +:+ Py.str total_blocks +:+ LF].
Proof.
  destruct (total_blocks_ceil (Z.of_nat (length img))) as (Hn & Hceil); [lia|].
  eexists _, _. split; [apply convert_img_to_dat_run|]. split; [done|].
  by rewrite text_read_write, transfer_text_lines
    by (done || by apply transfer_text_no_CR).
Qed.

Lemma split_cons_eq (sep : ascii) (s : string) :
  Py.split sep (String sep s) = "" :: Py.split sep s.
Proof. cbn. by rewrite decide_True. Qed.

Lemma split_cons_ne (sep c : ascii) (s w : string) (ws : list string) :
  c ≠ sep → Py.split sep s = w :: ws →
  Py.split sep (String c s) = String c w :: ws.
Proof. intros Hc Hs. cbn. by rewrite decide_False, Hs. Qed.

(** The one command line of that list. *)
Lemma parse_lines_new_line n st :
  0 ≤ n →
  parse_lines ["new 0," +:+ Py.str n +:+ LF] [] st
  = (st, Return [("new", [(0, n)])]).
Proof.
  intros Hn. destruct (str_digits n Hn) as (Hne & Hd & Hv).
  assert (Py.strip ("new 0," +:+ Py.str n +:+ LF) = "new 0," +:+ Py.str n) as Hstrip.
  { unfold Py.strip. rewrite !app_cons. cbn [Py.lstrip_with].
    change (Py.isspace "n") with false. cbn iota.
    rewrite <-!app_cons, <-app_assoc_str, rstrip_LF.
    by apply rstrip_app_digits. }
  assert (Py.split " " ("new 0," +:+ Py.str n) = ["new"; "0," +:+ Py.str n]) as Hsp.
  { rewrite !app_cons. change ("" +:+ ?t) with t.
    do 3 (apply split_cons_ne; [done|]). rewrite split_cons_eq. f_equal.
    apply split_no_sep. cbn [Py.all_chars].
    by rewrite (digits_no " " (Py.str n)) by done. }
  assert (Py.split "," ("0," +:+ Py.str n) = ["0"; Py.str n]) as Hsc.
  { rewrite !app_cons. change ("" +:+ ?t) with t.
    apply split_cons_ne; [done|]. rewrite split_cons_eq. f_equal.
    apply split_no_sep. by apply digits_no. }
  cbn [parse_lines]. rewrite Hstrip.
  assert (Py.startswith "#" ("new 0," +:+ Py.str n) = false) as -> by done.
  rewrite bool_decide_eq_false_2 by done. cbn [orb].
  rewrite Hsp, Hsc. change (is_transfer_cmd "new") with true. cbn iota.
  change (Z.of_nat (length ["0"; Py.str n]) `mod` 2) with 0.
  rewrite bool_decide_eq_false_2 by (by intros ?).
  rewrite bind_run. cbn [parse_pairs].
  change (Py.int "0") with (Some 0). rewrite int_str by done. done.
Qed.

(** The commands the parser reads back from that list. *)
Lemma parse_transfer_text os n st :
  0 ≤ n →
  parse_transfer_list (Py.text_write os (transfer_text n)) st
  = (st, Return [("new", [(0, n)])]).
Proof.
  intros Hn. unfold parse_transfer_list.
  rewrite text_read_write, transfer_text_lines
    by (done || by apply transfer_text_no_CR).
  rewrite bind_run.
  change (parse_version (Py.strip ("4" +:+ LF)) st) with (st, Return 4).
  cbn iota.
  change (first_command_line 4 _) with 4%nat. cbn [drop].
  by apply parse_lines_new_line.
Qed.

(** ** A range with a value that is no integer *)

(** C5: the code at a line whose range list holds a value that is no
    integer.  The pair is logged and left out, and the line still yields a
    command (here with no range at all), so the document parses to two
    commands; a line with an odd number of values is skipped whole. *)
Theorem parse_transfer_list_keeps_nonint_line :
  parse_transfer_list nonint_document init
  = (with_messages ["Warning: Invalid range values in line: new 0,x"] init,
     Return [("new", []); ("new", [(0, 4)])])
  ∧ parse_transfer_list odd_document init
    = (with_messages ["Warning: Invalid range format in line: new 0,1,2"] init,
       Return [("new", [(0, 4)])]).
Proof. split; vm_compute; reflexivity. Qed.

(** ** No command *)

(** C10. When the transfer list parses to no command,
    [convert_dat_to_img] raises "No valid commands found in transfer list"
    in the state the parser left: only the parser's warnings were logged,
    and the output file is as it was before the call, so none has been
    created. *)
Theorem convert_dat_to_img_no_commands
    (transfer_list : string) (dat : bytes) (st st' : state) :
  parse_transfer_list transfer_list st = (st', Return []) →
  convert_dat_to_img transfer_list dat st
  = (st', Raise (Exception "No valid commands found in transfer list"))
  ∧ output st' = output st.
Proof.
  intros Hparse. unfold convert_dat_to_img. rewrite bind_run, Hparse. cbn.
  destruct (parse_transfer_list_logs transfer_list st) as (msgs & r & H).
  rewrite Hparse in H. by injection H as -> _.
Qed.

Lemma convert_dat_to_img_no_commands_witness :
  convert_dat_to_img no_command_document [x01] init
  = (with_messages ["Warning: Invalid range format in line: new 0,1,2"] init,
     Raise (Exception "No valid commands found in transfer list"))
  ∧ output (with_messages ["Warning: Invalid range format in line: new 0,1,2"]
              init)
    = output init.
Proof.
  apply (convert_dat_to_img_no_commands no_command_document [x01] init).
  vm_compute. reflexivity.
Defined.

(** ** The output file *)

Global Arguments block_size : simpl never.

Lemma seek_run offset st old :
  output st = Some old → 0 ≤ offset →
  seek offset st = (with_output (Some old) (Z.to_nat offset) st, Return ()).
Proof.
  intros Hout Hoff. unfold seek. rewrite Hout.
  by rewrite bool_decide_eq_false_2 by lia.
Qed.

Lemma seek_negative offset st old :
  output st = Some old → offset < 0 →
  seek offset st = (st, Raise (OSError "[Errno 22] Invalid argument")).
Proof.
  intros Hout Hoff. unfold seek. rewrite Hout.
  by rewrite bool_decide_eq_true_2 by lia.
Qed.

Lemma write_run data st old :
  output st = Some old →
  write data st
  = (with_output (Some (write_at (position st) data old))
       (position st + length data) st, Return ()).
Proof. intros Hout. unfold write. by rewrite Hout. Qed.

Lemma truncate_run size st old :
  output st = Some old → 0 ≤ size →
  truncate size st
  = (with_output (Some (resize (Z.to_nat size) x00 old)) (position st) st,
     Return ()).
Proof.
  intros Hout Hs. unfold truncate. rewrite Hout.
  by rewrite bool_decide_eq_false_2 by lia.
Qed.

Lemma write_at_nil p old : write_at p [] old = old.
Proof. done. Qed.



Lemma write_at_ne p data old :
  data ≠ [] →
  write_at p data old = resize p x00 old ++ data ++ drop (p + length data) old.
Proof. by destruct data. Qed.

(** Two writes in a row are one write of the two pieces. *)
Lemma write_at_app p a b old :
  write_at (p + length a) b (write_at p a old) = write_at p (a ++ b) old.
Proof.
  destruct (decide (a = [])) as [->|Ha]; [by rewrite Nat.add_0_r|].
  destruct (decide (b = [])) as [->|Hb]; [by rewrite app_nil_r|].
  rewrite !write_at_ne by (done || by destruct a).
  assert (length (resize p x00 old) = p) as Hp by apply length_resize.
  rewrite resize_add.
  rewrite (resize_app (resize p x00 old)) by done.
  rewrite drop_app_length' by done.
  rewrite resize_app by done.
  rewrite <-!app_assoc. do 3 f_equal.
  rewrite (app_assoc _ a), drop_app_ge by (rewrite length_app; lia).
  rewrite !length_app, Hp, drop_drop. f_equal. lia.
Qed.

(** ** The block copy of a [new] range *)

Lemma block_size_pos : 0 < block_size.
Proof. done. Qed.

(** A block as read and zero filled is the source resized to a block. *)
Lemma padded_block (dat : bytes) :
  (let block := take (Z.to_nat block_size) dat in
   if bool_decide (Z.of_nat (length block) < block_size)
   then block ++ replicate (Z.to_nat (block_size - Z.of_nat (length block))) x00
   else block)
  = resize (Z.to_nat block_size) x00 dat.
Proof.
  cbv zeta. pose proof block_size_pos.
  rewrite length_take. case_bool_decide as Hlt.
  - unfold resize at 1; fold (resize (A:=byte)).
    rewrite resize_ge by lia. rewrite take_ge by lia. do 2 f_equal. lia.
  - rewrite resize_le by lia. done.
Qed.

Lemma copy_blocks_run (n : nat) (dat old : bytes) (st : state) :
  output st = Some old →
  copy_blocks n dat st
  = (with_output
       (Some (write_at (position st) (resize (n * Z.to_nat block_size) x00 dat) old))
       (position st + n * Z.to_nat block_size) st,
     Return (drop (n * Z.to_nat block_size) dat)).
Proof.
  revert dat old st. induction n as [|n IH]; intros dat old st Hout.
  { change (0 * _)%nat with 0%nat.
    rewrite Nat.add_0_r, resize_0, write_at_nil, drop_0.
    by rewrite <-Hout, with_output_id. }
  cbn [copy_blocks]. rewrite padded_block, bind_run.
  rewrite (write_run _ _ old) by done.
  rewrite (IH _ (write_at (position st) (resize (Z.to_nat block_size) x00 dat) old))
    by done.
  autorewrite with state_proj.
  rewrite write_at_app, length_resize, drop_drop.
  change (S n * ?b)%nat with (b + n * b)%nat.
  by rewrite resize_add, Nat.add_assoc.
Qed.

(** ** What the commands write *)

Lemma new_ranges_run ranges dat old st :
  output st = Some old →
  Forall (λ r, 0 ≤ r.1) ranges →
  ∃ p',
    new_ranges ranges dat st
    = (with_output
         (Some (foldl apply_op (old, dat) ((λ r, (New, r.1, r.2)) <$> ranges)).1)
         p' st,
       Return (foldl apply_op (old, dat) ((λ r, (New, r.1, r.2)) <$> ranges)).2).
Proof.
  revert dat old st. induction ranges as [|[start end_] ranges IH];
    intros dat old st Hout Hpos.
  { exists (position st). cbn. by rewrite <-Hout, with_output_id. }
  apply Forall_cons in Hpos as [Hs Hpos]. cbn in Hs.
  cbn [new_ranges]. rewrite bind_run.
  rewrite (seek_run _ _ old) by (done || pose proof block_size_pos; lia).
  rewrite bind_run, (copy_blocks_run _ _ old) by done.
  autorewrite with state_proj.
  edestruct (IH (drop (Z.to_nat (end_ - start) * Z.to_nat block_size) dat))
    as [p' ->]; [done..|].
  autorewrite with state_proj. by exists p'.
Qed.

Lemma zero_ranges_run ranges dat old st :
  output st = Some old →
  Forall (λ r, 0 ≤ r.1) ranges →
  ∃ p',
    zero_ranges ranges st
    = (with_output
         (Some (foldl apply_op (old, dat) ((λ r, (Zero, r.1, r.2)) <$> ranges)).1)
         p' st,
       Return ())
    ∧ (foldl apply_op (old, dat) ((λ r, (Zero, r.1, r.2)) <$> ranges)).2 = dat.
Proof.
  revert old st. induction ranges as [|[start end_] ranges IH];
    intros old st Hout Hpos.
  { exists (position st). cbn. by rewrite <-Hout, with_output_id. }
  apply Forall_cons in Hpos as [Hs Hpos]. cbn in Hs.
  cbn [zero_ranges]. rewrite bind_run.
  rewrite (seek_run _ _ old) by (done || pose proof block_size_pos; lia).
  rewrite bind_run, (write_run _ _ old) by done.
  autorewrite with state_proj.
  edestruct IH as (p' & -> & Hdat); [done..|].
  autorewrite with state_proj. exists p'. split; [done|]. apply Hdat.
Qed.

Lemma apply_commands_run commands dat old st :
  cancel_requested st = false →
  output st = Some old →
  Forall (λ op : range_op, 0 ≤ op.1.2) (ops_of commands) →
  ∃ p',
    apply_commands commands dat st
    = (with_output (Some (foldl apply_op (old, dat) (ops_of commands)).1) p' st,
       Return ()).
Proof.
  revert dat old st. induction commands as [|[cmd ranges] commands IH];
    intros dat old st Hc Hout Hpos.
  { exists (position st). cbn. by rewrite <-Hout, with_output_id. }
  unfold ops_of in Hpos |- *. rewrite bind_cons in Hpos |- *.
  apply Forall_app in Hpos as [Hpos1 Hpos2]. rewrite foldl_app.
  cbn [apply_commands]. rewrite bind_run. unfold get_cancel_requested.
  rewrite Hc. unfold ops_of_command in Hpos1 |- *. cbn [fst snd] in Hpos1 |- *.
  case_bool_decide as Hnew; [|case_bool_decide as Hzero].
  - rewrite Forall_fmap in Hpos1.
    destruct (new_ranges_run ranges dat old st) as [p1 H1]; [done..|].
    rewrite bind_run, H1.
    edestruct (IH (foldl apply_op (old, dat) ((λ r, (New, r.1, r.2)) <$> ranges)).2)
      as [p' ->]; [done..|].
    rewrite with_output_twice. exists p'. by rewrite <-surjective_pairing.
  - rewrite Forall_fmap in Hpos1.
    destruct (zero_ranges_run ranges dat old st) as (p1 & H1 & Hdat); [done..|].
    rewrite bind_run, H1.
    edestruct (IH dat) as [p' ->]; [done..|].
    rewrite with_output_twice. exists p'.
    rewrite <-Hdat at 2. by rewrite <-surjective_pairing.
  - cbn [foldl]. by apply IH.
Qed.

(** ** Last writer wins *)

Lemma blocks_bytes (k : Z) :
  (Z.to_nat k * Z.to_nat block_size)%nat = Z.to_nat (k * block_size).
Proof.
  pose proof block_size_pos. destruct (decide (0 ≤ k)).
  - by rewrite Z2Nat.inj_mul by lia.
  - rewrite (Z2Nat.nonpos k), (Z2Nat.nonpos (k * block_size)) by nia. done.
Qed.

Lemma apply_op_eq f op :
  apply_op f op
  = (write_at (Z.to_nat (op.1.2 * block_size)) (op_data f.2 op) f.1,
     drop (blocks_read op * Z.to_nat block_size) f.2).
Proof.
  destruct op as [[[] s] e]; unfold apply_op, op_data, blocks_read; cbn [fst snd].
  - by rewrite blocks_bytes.
  - done.
Qed.










(** ** The extent *)

Lemma extent_app (ops1 ops2 : list range_op) :
  foldr (λ op m, Z.max op.2 m) 0 (ops1 ++ ops2)
  = Z.max (foldr (λ op m, Z.max op.2 m) 0 ops1)
          (foldr (λ op m, Z.max op.2 m) 0 ops2).
Proof.
  assert (∀ ops : list range_op, 0 ≤ foldr (λ op m, Z.max op.2 m) 0 ops) as Hpos.
  { intros ops. induction ops; cbn; lia. }
  induction ops1 as [|op ops1 IH]; cbn.
  - pose proof (Hpos ops2). lia.
  - rewrite IH. lia.
Qed.

Lemma extent_nonneg commands : 0 ≤ extent commands.
Proof. unfold extent. induction (ops_of commands); cbn; lia. Qed.


(** The extent is 0 or the end of some range. *)
Lemma extent_attained commands :
  extent commands = 0 ∨ ∃ op, op ∈ ops_of commands ∧ op.2 = extent commands.
Proof.
  unfold extent. induction (ops_of commands) as [|op ops IH]; [by left|].
  cbn. destruct (decide (foldr (λ op m, Z.max op.2 m) 0 ops ≤ op.2)).
  - right. exists op. split; [by left|lia].
  - destruct IH as [IH|(op' & Hin & IH)].
    + left. lia.
    + right. exists op'. split; [by right|lia].
Qed.

Lemma max_block_ranges (k : op_kind) (ranges : list (Z * Z)) (m : Z) :
  0 ≤ m →
  foldl (λ (max_block : Z) '((start, end_) : Z * Z),
           if bool_decide (end_ > max_block) then end_ else max_block) m ranges
  = Z.max m (foldr (λ op m, Z.max op.2 m) 0 ((λ r, (k, r.1, r.2)) <$> ranges)).
Proof.
  revert m. induction ranges as [|[s e] ranges IH]; intros m Hm; cbn.
  { lia. }
  case_bool_decide; rewrite IH by lia; lia.
Qed.

Lemma is_transfer_cmd_ops cmd ranges :
  (is_transfer_cmd cmd = true ∧
   ∃ k, ops_of_command (cmd, ranges) = (λ r, (k, r.1, r.2)) <$> ranges)
  ∨ (is_transfer_cmd cmd = false ∧ ops_of_command (cmd, ranges) = []).
Proof.
  unfold is_transfer_cmd, ops_of_command. cbn [fst snd].
  destruct (decide (cmd = "new")) as [->|Hn].
  { left. split; [done|]. by exists New. }
  rewrite (bool_decide_eq_false_2 (cmd = "new")) by done.
  destruct (decide (cmd ∈ ["erase"; "zero"])) as [Hin|Hnin].
  - left. rewrite (bool_decide_eq_true_2 _ Hin). split; [|by exists Zero].
    apply bool_decide_eq_true. revert Hin.
    rewrite !elem_of_cons, !elem_of_nil. tauto.
  - right. rewrite (bool_decide_eq_false_2 _ Hnin). split; [|done].
    apply bool_decide_eq_false. revert Hnin.
    rewrite !elem_of_cons, !elem_of_nil. tauto.
Qed.

(** The first loop of [convert_dat_to_img] computes the extent. *)
Lemma max_block_of_extent commands : max_block_of commands = extent commands.
Proof.
  unfold max_block_of, extent.
  cut (∀ m, 0 ≤ m →
    foldl (λ (max_block : Z) '((cmd, ranges) : command),
       if is_transfer_cmd cmd then
         foldl (λ (max_block : Z) '((start, end_) : Z * Z),
                  if bool_decide (end_ > max_block) then end_ else max_block)
               max_block ranges
       else max_block) m commands
    = Z.max m (foldr (λ op m, Z.max op.2 m) 0 (ops_of commands))).
  { intros H. rewrite H by done. pose proof (extent_nonneg commands) as Hp.
    unfold extent in Hp. lia. }
  induction commands as [|[cmd ranges] commands IH]; intros m Hm.
  { cbn. lia. }
  unfold ops_of. rewrite bind_cons, extent_app. cbn [foldl].
  destruct (is_transfer_cmd_ops cmd ranges) as [(-> & k & ->)|(-> & ->)].
  - rewrite (max_block_ranges k) by done. rewrite IH by lia.
    unfold ops_of. lia.
  - rewrite IH by done. cbn. pose proof (extent_nonneg commands) as Hp.
    unfold extent, ops_of in Hp. unfold ops_of. lia.
Qed.

(** ** The image [convert_dat_to_img] leaves *)

Lemma starts_in_reach_nonneg commands :
  starts_in_reach commands → starts_nonneg commands.
Proof. intros H. eapply Forall_impl; [exact H|]. by intros op [? _]. Qed.

Lemma in_reach_nonneg commands : in_reach commands → starts_nonneg commands.
Proof. intros [_ ?]. by apply starts_in_reach_nonneg. Qed.

Lemma parse_keeps_cancel transfer_list st st' r :
  parse_transfer_list transfer_list st = (st', r) →
  cancel_requested st' = cancel_requested st ∧ output st' = output st.
Proof.
  intros Hparse.
  destruct (parse_transfer_list_logs transfer_list st) as (msgs & r' & H).
  rewrite Hparse in H. by injection H as -> _.
Qed.

Lemma materialize_run commands dat st :
  commands ≠ [] →
  cancel_requested st = false →
  starts_nonneg commands →
  ∃ p',
    materialize commands dat st
    = (with_messages ["DAT to IMG conversion completed"]
         (with_output (Some (image_of commands dat)) p' st), Return ()).
Proof.
  intros Hne Hc Hpos. unfold materialize.
  destruct commands as [|c commands]; [done|]. set (cs := c :: commands) in *.
  pose proof (extent_nonneg cs) as Hext. pose proof block_size_pos.
  rewrite bind_run. unfold open_wb, set_output.
  rewrite bind_run, (truncate_run _ _ [])
    by (rewrite ?max_block_of_extent; done || nia).
  rewrite with_output_twice, resize_nil, max_block_of_extent. cbn [position with_output].
  rewrite bind_run.
  edestruct (apply_commands_run cs dat) as [p' ->]; [| |exact Hpos|]; [done..|].
  rewrite with_output_twice. by exists p'.
Qed.





Lemma convert_dat_to_img_run transfer_list dat st st1 commands :
  parse_transfer_list transfer_list st = (st1, Return commands) →
  commands ≠ [] →
  cancel_requested st = false →
  starts_nonneg commands →
  ∃ st',
    convert_dat_to_img transfer_list dat st = (st', Return ())
    ∧ output st' = Some (image_of commands dat).
Proof.
  intros Hparse Hne Hc Hpos. unfold convert_dat_to_img.
  rewrite bind_run, Hparse.
  apply parse_keeps_cancel in Hparse as [Hc1 _].
  destruct (materialize_run commands dat st1) as [p' ->]; [done|congruence|done|].
  eexists. split; [done|]. done.
Qed.




(** Block 0 is zeroed by the later [zero], block 1 keeps the second
    source block. *)
Example convert_dat_to_img_overlap :
  output (convert_dat_to_img overlap_document overlap_dat init).1
  = Some (replicate (Z.to_nat 4096) x00 ++ replicate (Z.to_nat 4096) x02).
Proof. compute_done. Qed.



(** Blocks 0 and 1 hold the source, blocks 2 and 3 are zero. *)
Example convert_dat_to_img_truncated_source :
  convert_dat_to_img truncated_document truncated_dat init
  = (with_messages ["DAT to IMG conversion completed"]
       (with_output
          (Some (truncated_dat ++ replicate (Z.to_nat 8192) x00))
          (Z.to_nat 16384) init),
     Return ()).
Proof. compute_done. Qed.

(** ** Round trip *)

Lemma write_at_all data old :
  length data = length old → write_at 0 data old = data.
Proof.
  intros Hlen. destruct data as [|b data].
  { by destruct old. }
  rewrite write_at_ne by done. rewrite resize_0, Nat.add_0_l, Hlen, drop_all.
  cbn. by rewrite app_nil_r.
Qed.

Lemma image_of_one_new (n : Z) (img : bytes) :
  0 ≤ n →
  Z.of_nat (length img) = n * block_size →
  image_of [("new", [(0, n)])] img = img.
Proof.
  intros Hn Hlen. unfold image_of, extent.
  change (ops_of [("new", [(0, n)])]) with [(New, 0, n)].
  cbn [foldl foldr snd]. rewrite Z.max_l by lia.
  rewrite apply_op_eq. unfold op_data. cbn [fst snd].
  change (Z.to_nat (0 * block_size)) with 0%nat. rewrite Z.sub_0_r.
  assert (Z.to_nat (n * block_size) = length img) as -> by lia.
  rewrite resize_all. apply write_at_all. by rewrite length_replicate.
Qed.

(** C1. For an image whose length is a multiple of 4096,
    [convert_img_to_dat] followed by [convert_dat_to_img] on the transfer
    list and the dat file it wrote returns normally and leaves the image,
    byte for byte (on either platform's line separator, when no cancel was
    requested). *)
Theorem convert_img_to_dat_to_img_roundtrip
    (os : Py.platform) (img : bytes) (st : state) :
  cancel_requested st = false →
  Z.of_nat (length img) `mod` block_size = 0 →
  ∃ st',
    (convert_img_to_dat os img ≫= λ '(transfer_list, dat),
       convert_dat_to_img transfer_list dat) st
    = (st', Return ())
    ∧ output st' = Some img.
Proof.
  intros Hc Hmod. rewrite bind_run, convert_img_to_dat_run.
  set (n := (Z.of_nat (length img) + block_size - 1) `div` block_size).
  assert (0 ≤ n ∧ Z.of_nat (length img) = n * block_size) as [Hn Hlen].
  { subst n. revert Hmod. unfold block_size. intros Hmod.
    Z.div_mod_to_equations. lia. }
  set (st1 := with_messages _ st).
  destruct (convert_dat_to_img_run
              (Py.text_write os (transfer_text n)) img st1 st1
              [("new", [(0, n)])]) as (st' & -> & Hout).
  - by apply parse_transfer_text.
  - done.
  - done.
  - unfold starts_nonneg. by repeat constructor.
  - exists st'. split; [done|]. by rewrite Hout, image_of_one_new.
Qed.

Lemma convert_img_to_dat_to_img_roundtrip_witness :
  ∃ st',
    (convert_img_to_dat Py.Windows roundtrip_image ≫= λ '(transfer_list, dat),
       convert_dat_to_img transfer_list dat) init
    = (st', Return ())
    ∧ output st' = Some roundtrip_image.
Proof.
  apply (convert_img_to_dat_to_img_roundtrip Py.Windows roundtrip_image init).
  - reflexivity.
  - vm_compute. reflexivity.
Defined.

(** The first element with a decidable property splits the list. *)
Lemma first_split {A} (P : A → Prop) `{!∀ x, Decision (P x)} (l : list A) :
  Exists P l →
  ∃ pre x post, l = pre ++ x :: post ∧ Forall (λ y, ¬ P y) pre ∧ P x.
Proof.
  induction l as [|a l IH]; [by intros ?%Exists_nil|].
  intros Hex. destruct (decide (P a)) as [Ha|Hna].
  { by exists [], a, l. }
  apply Exists_cons in Hex as [?|Hex]; [done|].
  destruct (IH Hex) as (pre & x & post & -> & Hpre & Hx).
  exists (a :: pre), x, post. split_and!; [done| |done].
  by constructor.
Qed.

(** ** Padding and electronic codebook *)

Lemma bchr_zero (n : nat) : (n < 256)%nat → bchr n = x00 → n = 0%nat.
Proof.
  intros Hn. unfold bchr.
  destruct (Byte.of_nat n) as [b|] eqn:E.
  - apply Byte.to_of_nat in E. cbn. by intros ->.
  - apply Byte.of_nat_None_iff in E. lia.
Qed.

Lemma mod_16_nat (n : nat) :
  Z.of_nat n `mod` 16 = Z.of_nat (n `mod` 16).
Proof. by rewrite Nat2Z.inj_mod. Qed.

Lemma pad_length (chunk : bytes) :
  (length (pad chunk 16) `mod` 16 = 0)%nat.
Proof.
  unfold pad. rewrite length_app, length_replicate.
  pose proof (Nat.mod_upper_bound (length chunk) 16 ltac:(done)).
  rewrite (Nat.div_mod_eq (length chunk) 16) at 1.
  replace (16 * (length chunk `div` 16) + length chunk `mod` 16
           + (16 - length chunk `mod` 16))%nat
    with ((1 + length chunk `div` 16) * 16)%nat by lia.
  apply Nat.Div0.mod_mul.
Qed.

Lemma pad_if_needed_length (chunk : bytes) :
  Z.of_nat (length (pad_if_needed chunk)) `mod` 16 = 0.
Proof.
  unfold pad_if_needed. case_bool_decide as H.
  - by rewrite mod_16_nat, pad_length.
  - done.
Qed.

Lemma pad_if_needed_aligned (chunk : bytes) :
  Z.of_nat (length chunk) `mod` 16 = 0 → pad_if_needed chunk = chunk.
Proof. intros H. unfold pad_if_needed. by rewrite bool_decide_eq_false_2 by lia. Qed.

Lemma pad_if_needed_partial (chunk : bytes) :
  Z.of_nat (length chunk) `mod` 16 ≠ 0 →
  pad_if_needed chunk
  = chunk ++ replicate (16 - length chunk `mod` 16)
               (bchr (16 - length chunk `mod` 16)).
Proof. intros H. unfold pad_if_needed. by rewrite bool_decide_eq_true_2. Qed.

Lemma pad_if_needed_app (a b : bytes) :
  Z.of_nat (length a) `mod` 16 = 0 →
  pad_if_needed (a ++ b) = a ++ pad_if_needed b.
Proof.
  intros Ha. rewrite mod_16_nat in Ha.
  assert (length (a ++ b) `mod` 16 = length b `mod` 16)%nat as Hmod.
  { rewrite length_app, <-Nat.Div0.add_mod_idemp_l.
    replace (length a `mod` 16)%nat with 0%nat by lia. done. }
  unfold pad_if_needed, pad. rewrite !mod_16_nat, Hmod.
  case_bool_decide; [|done]. by rewrite <-(assoc_L (++)).
Qed.

Lemma blocks16_app (k m : nat) (a b : bytes) :
  length a = (16 * k)%nat →
  blocks16 (k + m) (a ++ b) = blocks16 k a ++ blocks16 m b.
Proof.
  revert a. induction k as [|k IH]; intros a Ha.
  { destruct a; [done|]. cbn in Ha. lia. }
  cbn [blocks16 Nat.add app].
  rewrite take_app_le, drop_app_le by lia.
  rewrite IH; [done|]. rewrite length_drop. lia.
Qed.

Lemma ecb_nil (f : bytes → bytes) : ecb f [] = [].
Proof. done. Qed.

Lemma ecb_app (f : bytes → bytes) (a b : bytes) :
  Z.of_nat (length a) `mod` 16 = 0 →
  ecb f (a ++ b) = ecb f a ++ ecb f b.
Proof.
  intros Ha. rewrite mod_16_nat in Ha. unfold ecb.
  pose proof (Nat.div_mod_eq (length a) 16) as Hk.
  replace (length a `mod` 16)%nat with 0%nat in Hk by lia.
  assert (length (a ++ b) `div` 16
          = length a `div` 16 + length b `div` 16)%nat as ->.
  { rewrite length_app. rewrite Hk at 1.
    rewrite Nat.add_0_r, (Nat.mul_comm 16), Nat.div_add_l by done. done. }
  rewrite blocks16_app by lia.
  by rewrite fmap_app, join_app.
Qed.

Lemma KEYS_valid : Forall (λ key_hex, valid_key key_hex = true) KEYS.
Proof. compute_done. Qed.

Lemma with_aes_new_app keys1 keys2 st :
  with_aes_new keys2 (with_aes_new keys1 st) = with_aes_new (keys1 ++ keys2) st.
Proof. unfold with_aes_new. cbn. by rewrite (assoc_L (++)). Qed.

Lemma with_aes_new_nil st : with_aes_new [] st = st.
Proof. destruct st. unfold with_aes_new. cbn. by rewrite app_nil_r. Qed.

(** Cutting at a multiple of 16, or past the end, and padding each part
    gives the blocks of the whole, padded. *)
Lemma ecb_pad_split (g : bytes → bytes) (k : nat) (data : bytes) :
  Z.of_nat k `mod` 16 = 0 ∨ (length data ≤ k)%nat →
  ecb g (pad_if_needed (take k data)) ++ ecb g (pad_if_needed (drop k data))
  = ecb g (pad_if_needed data).
Proof.
  intros Hk. destruct (decide (length data ≤ k)%nat) as [Hle|Hgt].
  { rewrite take_ge, drop_ge by done. by rewrite app_nil_r. }
  destruct Hk as [Hk|?]; [|lia].
  assert (length (take k data) = k) as Hlen by (rewrite length_take; lia).
  rewrite <-(take_drop k data) at 3.
  rewrite pad_if_needed_app, ecb_app by (by rewrite Hlen).
  by rewrite pad_if_needed_aligned by (by rewrite Hlen).
Qed.

Section CipherProofs.

Variable aes_encrypt_block : bytes → bytes → bytes.
Variable aes_decrypt_block : bytes → bytes → bytes.

Lemma cipher_decrypt_aligned (c : cipher) (data : bytes) :
  Z.of_nat (length data) `mod` 16 = 0 →
  cipher_decrypt aes_decrypt_block c data
  = Return (ecb (aes_decrypt_block (cipher_key c)) data).
Proof. intros H. unfold cipher_decrypt. by rewrite bool_decide_eq_false_2 by lia. Qed.

Lemma cipher_encrypt_aligned (c : cipher) (data : bytes) :
  Z.of_nat (length data) `mod` 16 = 0 →
  cipher_encrypt aes_encrypt_block c data
  = Return (ecb (aes_encrypt_block (cipher_key c)) data).
Proof. intros H. unfold cipher_encrypt. by rewrite bool_decide_eq_false_2 by lia. Qed.

Lemma decrypt_chunks_body st c f encrypted_size bytes_decrypted tmp_file :
  decrypt_chunks aes_decrypt_block st c f encrypted_size bytes_decrypted tmp_file
  = if decide (bytes_decrypted < encrypted_size) then
      if cancel_requested st then Return tmp_file
      else
        let chunk_size := Z.min 0x4000 (encrypted_size - bytes_decrypted) in
        let chunk := take (Z.to_nat chunk_size) f in
        match chunk with
        | [] => Return tmp_file
        | _ =>
            match cipher_decrypt aes_decrypt_block c (pad_if_needed chunk) with
            | Raise e => Raise e
            | Return decrypted =>
                decrypt_chunks aes_decrypt_block st c
                  (drop (Z.to_nat chunk_size) f) encrypted_size
                  (bytes_decrypted + chunk_size) (tmp_file ++ decrypted)
            end
        end
    else Return tmp_file.
Proof.
  rewrite decrypt_chunks_equation_1.
  by destruct (decide (bytes_decrypted < encrypted_size)).
Qed.

(** The loop of [decrypt_ozip] leaves the blocks of what it read, the
    last chunk padded. *)
Lemma decrypt_chunks_run st c f encrypted_size bytes_decrypted tmp_file :
  cancel_requested st = false →
  Z.of_nat (length f) = encrypted_size - bytes_decrypted →
  decrypt_chunks aes_decrypt_block st c f encrypted_size bytes_decrypted tmp_file
  = Return (tmp_file
            ++ ecb (aes_decrypt_block (cipher_key c)) (pad_if_needed f)).
Proof.
  intros Hc. remember (length f) as n eqn:Hn.
  revert f bytes_decrypted tmp_file Hn.
  induction (lt_wf n) as [n _ IH]; intros f bytes_decrypted tmp_file -> Hlen.
  rewrite decrypt_chunks_body.
  destruct (decide (bytes_decrypted < encrypted_size)) as [Hlt|Hge].
  - rewrite Hc. cbv zeta.
    set (k := Z.to_nat (Z.min 0x4000 (encrypted_size - bytes_decrypted))).
    assert (0 < k ≤ length f)%nat as Hk by lia.
    destruct (take k f) as [|b chunk] eqn:Etake.
    { apply (f_equal length) in Etake. rewrite length_take in Etake.
      cbn in Etake. lia. }
    rewrite <-Etake. rewrite cipher_decrypt_aligned
      by apply pad_if_needed_length.
    rewrite (IH (length (drop k f))); [| |done|].
    + rewrite <-(assoc_L (++)), ecb_pad_split; [done|].
      destruct (decide (length f ≤ k)%nat); [by right|left].
      assert (k = Z.to_nat 0x4000) as -> by lia. done.
    + rewrite length_drop. lia.
    + rewrite length_drop. lia.
  - destruct f; [|cbn in Hlen; lia]. by rewrite app_nil_r.
Qed.

Lemma encrypt_chunks_body c block_size zip_file zip_size bytes_processed st :
  encrypt_chunks aes_encrypt_block c block_size zip_file zip_size
    bytes_processed st
  = if decide (bytes_processed < zip_size) then
      if cancel_requested st
      then (st, Raise (Exception "Conversion cancelled by user"))
      else
        let read_size := Z.min (Z.pos block_size) (zip_size - bytes_processed) in
        let block := take (Z.to_nat read_size) zip_file in
        match cipher_encrypt aes_encrypt_block c (pad_if_needed block) with
        | Raise e => (st, Raise e)
        | Return encrypted_block =>
            match write encrypted_block st with
            | (st', Raise e) => (st', Raise e)
            | (st', Return _) =>
                encrypt_chunks aes_encrypt_block c block_size
                  (drop (Z.to_nat read_size) zip_file) zip_size
                  (bytes_processed + read_size) st'
            end
        end
    else (st, Return ()).
Proof.
  rewrite encrypt_chunks_equation_1.
  by destruct (decide (bytes_processed < zip_size)).
Qed.

(** The loop of [encrypt_to_ozip], for a chunk size that is a multiple of
    16, writes the blocks of the archive, the last chunk padded. *)
Lemma encrypt_chunks_run c block_size zip_file zip_size bytes_processed st old :
  Z.pos block_size `mod` 16 = 0 →
  cancel_requested st = false →
  output st = Some old →
  Z.of_nat (length zip_file) = zip_size - bytes_processed →
  encrypt_chunks aes_encrypt_block c block_size zip_file zip_size
    bytes_processed st
  = (let encrypted :=
       ecb (aes_encrypt_block (cipher_key c)) (pad_if_needed zip_file) in
     (with_output (Some (write_at (position st) encrypted old))
        (position st + length encrypted) st, Return ())).
Proof.
  intros Hbs. remember (length zip_file) as n eqn:Hn.
  revert zip_file bytes_processed st old Hn.
  induction (lt_wf n) as [n _ IH];
    intros zip_file bytes_processed st old -> Hc Hout Hlen.
  rewrite encrypt_chunks_body. cbv zeta.
  destruct (decide (bytes_processed < zip_size)) as [Hlt|Hge].
  - rewrite Hc.
    set (k := Z.to_nat (Z.min (Z.pos block_size) (zip_size - bytes_processed))).
    assert (0 < k ≤ length zip_file)%nat as Hk by lia.
    rewrite cipher_encrypt_aligned by apply pad_if_needed_length.
    rewrite (write_run _ _ old) by done.
    set (e1 := ecb _ (pad_if_needed (take k zip_file))).
    assert (length (drop k zip_file) < length zip_file)%nat as Hdrop
      by (rewrite length_drop; lia).
    rewrite (IH _ Hdrop (drop k zip_file) _ _
               (write_at (position st) e1 old) eq_refl);
      [|done|done|rewrite length_drop; lia].
    cbv zeta. autorewrite with state_proj. subst e1.
    rewrite ?with_output_twice, write_at_app, <-Nat.add_assoc, <-length_app.
    rewrite ecb_pad_split; [done|].
    destruct (decide (length zip_file ≤ k)%nat); [by right|left].
    assert (Z.of_nat k = Z.pos block_size) as -> by lia. done.
  - destruct zip_file; [|cbn in Hlen; lia].
    rewrite pad_if_needed_aligned by done.
    rewrite ecb_nil, write_at_nil, Nat.add_0_r, <-Hout. by rewrite with_output_id.
Qed.

(** The loop agrees with the single-chunk reference. *)
Lemma encrypt_chunks_single c block_size zip_file st old :
  Z.pos block_size `mod` 16 = 0 →
  cancel_requested st = false →
  output st = Some old →
  encrypt_chunks aes_encrypt_block c block_size zip_file
    (Z.of_nat (length zip_file)) 0 st
  = encrypt_single_chunk aes_encrypt_block c zip_file st.
Proof.
  intros Hbs Hc Hout.
  rewrite (encrypt_chunks_run _ _ _ _ _ _ old) by (done || lia).
  cbv zeta. unfold encrypt_single_chunk.
  rewrite cipher_encrypt_aligned by apply pad_if_needed_length.
  by rewrite (write_run _ _ old).
Qed.

(** *** One key *)

Lemma unhexlify_valid key_hex st :
  valid_key key_hex = true →
  unhexlify key_hex st = (st, Return (key_bytes key_hex)).
Proof.
  unfold valid_key. rewrite !andb_true_iff, !bool_decide_eq_true.
  intros [[Heven [b Hb]] _]. unfold unhexlify, key_bytes.
  rewrite bool_decide_eq_false_2 by lia. by rewrite Hb.
Qed.

Lemma AES_new_valid key_hex st :
  valid_key key_hex = true →
  AES_new (key_bytes key_hex) st
  = (with_aes_new [key_bytes key_hex] st, Return (Cipher (key_bytes key_hex))).
Proof.
  unfold valid_key. rewrite !andb_true_iff, !bool_decide_eq_true.
  intros [_ Hlen]. unfold AES_new. rewrite bind_run. unfold record_aes_new.
  by rewrite bool_decide_eq_true_2.
Qed.

Lemma ozip_body_length ozip :
  0x1050 ≤ Z.of_nat (length ozip) →
  Z.of_nat (length (ozip_body ozip)) = Z.of_nat (length ozip) - 0x1050 - 0.
Proof. intros H. unfold ozip_body. rewrite length_drop. lia. Qed.

Lemma try_key_run ozip key_hex st :
  valid_key key_hex = true →
  cancel_requested st = false →
  0x1050 ≤ Z.of_nat (length ozip) →
  try_key aes_decrypt_block ozip (Z.of_nat (length ozip) - 0x1050) key_hex st
  = if bool_decide (validates aes_decrypt_block ozip key_hex)
    then (decrypted_state key_hex
            (trial_plaintext aes_decrypt_block ozip key_hex) st,
          Return (Some true))
    else (with_aes_new [key_bytes key_hex] st, Return None).
Proof.
  intros Hv Hc Hlen. unfold try_key, try_except.
  rewrite bind_run, unhexlify_valid, bind_run, AES_new_valid by done.
  cbv zeta. rewrite bind_run. unfold reading.
  fold (ozip_body ozip).
  rewrite decrypt_chunks_run by (done || by apply ozip_body_length).
  rewrite bind_run. unfold get_cancel_requested.
  change (cancel_requested (with_aes_new _ st)) with (cancel_requested st).
  rewrite Hc. cbn [app cipher_key].
  fold (trial_plaintext aes_decrypt_block ozip key_hex).
  fold (validates aes_decrypt_block ozip key_hex).
  destruct (bool_decide _); reflexivity.
Qed.

(** *** The keys in order *)

Lemma try_keys_none ozip keys st :
  Forall (λ key_hex, valid_key key_hex = true) keys →
  cancel_requested st = false →
  0x1050 ≤ Z.of_nat (length ozip) →
  Forall (λ key_hex, ¬ validates aes_decrypt_block ozip key_hex) keys →
  try_keys aes_decrypt_block ozip (Z.of_nat (length ozip) - 0x1050) keys st
  = (with_aes_new (key_bytes <$> keys) st,
     Raise (Exception "Failed to decrypt OZIP with any known key")).
Proof.
  intros Hv Hc Hlen Hn. revert st Hc.
  induction keys as [|key_hex keys IH]; intros st Hc.
  { cbn. by rewrite with_aes_new_nil. }
  apply Forall_cons in Hv as [Hv Hvs]. apply Forall_cons in Hn as [Hn Hns].
  cbn [try_keys]. rewrite bind_run. unfold get_cancel_requested. rewrite Hc.
  rewrite bind_run, try_key_run, bool_decide_eq_false_2 by done.
  rewrite IH by done. by rewrite with_aes_new_app.
Qed.

Lemma try_keys_first ozip pre key_hex post st :
  Forall (λ key_hex, valid_key key_hex = true) (pre ++ key_hex :: post) →
  cancel_requested st = false →
  0x1050 ≤ Z.of_nat (length ozip) →
  Forall (λ key_hex, ¬ validates aes_decrypt_block ozip key_hex) pre →
  validates aes_decrypt_block ozip key_hex →
  try_keys aes_decrypt_block ozip (Z.of_nat (length ozip) - 0x1050)
    (pre ++ key_hex :: post) st
  = (decrypted_state key_hex (trial_plaintext aes_decrypt_block ozip key_hex)
       (with_aes_new (key_bytes <$> pre) st),
     Return true).
Proof.
  intros Hv Hc Hlen Hn Hk. revert st Hc.
  induction pre as [|key_hex' pre IH]; intros st Hc.
  - apply Forall_cons in Hv as [Hv _].
    cbn [try_keys app fmap list_fmap]. rewrite bind_run.
    unfold get_cancel_requested. rewrite Hc.
    rewrite bind_run, try_key_run, bool_decide_eq_true_2 by done.
    by rewrite with_aes_new_nil.
  - apply Forall_cons in Hv as [Hv Hvs]. apply Forall_cons in Hn as [Hn Hns].
    cbn [try_keys app]. rewrite bind_run. unfold get_cancel_requested.
    rewrite Hc. rewrite bind_run, try_key_run, bool_decide_eq_false_2 by done.
    rewrite IH by done. by rewrite with_aes_new_app.
Qed.

Lemma try_keys_cancelled ozip encrypted_size key_hex keys st :
  cancel_requested st = true →
  try_keys aes_decrypt_block ozip encrypted_size (key_hex :: keys) st
  = (st, Return false).
Proof.
  intros Hc. cbn [try_keys]. rewrite bind_run. unfold get_cancel_requested.
  by rewrite Hc.
Qed.

(** *** [decrypt_ozip] *)

Lemma decrypt_ozip_small ozip st :
  Z.of_nat (length ozip) < 0x1050 →
  decrypt_ozip aes_decrypt_block ozip st
  = (st, Raise (Exception "OZIP file is too small to be valid")).
Proof. intros H. unfold decrypt_ozip. by rewrite bool_decide_eq_true_2. Qed.

Lemma decrypt_ozip_large ozip st :
  0x1050 ≤ Z.of_nat (length ozip) →
  decrypt_ozip aes_decrypt_block ozip st
  = try_keys aes_decrypt_block ozip (Z.of_nat (length ozip) - 0x1050) KEYS st.
Proof. intros H. unfold decrypt_ozip. by rewrite bool_decide_eq_false_2 by lia. Qed.

(** Of the container, the loop over the keys reads the body only. *)
Lemma try_keys_body ozip ozip' encrypted_size keys st :
  ozip_body ozip = ozip_body ozip' →
  try_keys aes_decrypt_block ozip encrypted_size keys st
  = try_keys aes_decrypt_block ozip' encrypted_size keys st.
Proof.
  intros Hbody.
  assert (∀ key_hex,
    try_key aes_decrypt_block ozip encrypted_size key_hex
    = try_key aes_decrypt_block ozip' encrypted_size key_hex) as Hkey.
  { intros key_hex. unfold try_key. fold (ozip_body ozip) (ozip_body ozip').
    by rewrite Hbody. }
  revert st. induction keys as [|key_hex keys IH]; intros st; [done|].
  cbn [try_keys]. rewrite !bind_run. unfold get_cancel_requested.
  destruct (cancel_requested st); [done|].
  rewrite !bind_run, Hkey.
  destruct (try_key _ ozip' _ _ st) as [st' [[b|]|e]]; [done| |done].
  apply IH.
Qed.

(** With no cancel requested, [decrypt_ozip] on a container of at least
    0x1050 bytes ends in one of two ways. *)
Lemma decrypt_ozip_outcome ozip st :
  cancel_requested st = false →
  0x1050 ≤ Z.of_nat (length ozip) →
  (Forall (λ key_hex, ¬ validates aes_decrypt_block ozip key_hex) KEYS
   ∧ decrypt_ozip aes_decrypt_block ozip st
     = (with_aes_new (key_bytes <$> KEYS) st,
        Raise (Exception "Failed to decrypt OZIP with any known key")))
  ∨ (∃ pre key_hex post,
       KEYS = pre ++ key_hex :: post
       ∧ Forall (λ key_hex, ¬ validates aes_decrypt_block ozip key_hex) pre
       ∧ validates aes_decrypt_block ozip key_hex
       ∧ decrypt_ozip aes_decrypt_block ozip st
         = (decrypted_state key_hex
              (trial_plaintext aes_decrypt_block ozip key_hex)
              (with_aes_new (key_bytes <$> pre) st),
            Return true)).
Proof.
  intros Hc Hlen. rewrite decrypt_ozip_large by done.
  pose proof KEYS_valid as Hv.
  destruct (decide (Forall (λ key_hex,
              ¬ validates aes_decrypt_block ozip key_hex) KEYS)) as [Hn|Hex].
  { left. split; [done|]. by apply try_keys_none. }
  right. apply not_Forall_Exists in Hex; [|apply _].
  apply (Exists_impl _ (validates aes_decrypt_block ozip)) in Hex;
    [|by intros key_hex ?%dec_stable].
  apply first_split in Hex as (pre & key_hex & post & HK & Hpre & Hk);
    [|apply _].
  exists pre, key_hex, post. split_and!; [done..|].
  rewrite HK in Hv |- *. by apply try_keys_first.
Qed.

(** C3. With no cancel requested and a container of at least 0x1050
    bytes, [decrypt_ozip] tries the keys of [KEYS] in their order: when
    [key_hex] is the first key whose decryption of the body starts with the
    four bytes of the ZIP signature, it returns [True] having called
    [AES.new] for the keys up to [key_hex] and for no later one, with
    [key_hex] as the successful key and the decryption in the output file;
    when no key validates it has called [AES.new] for every key, and it
    raises "Failed to decrypt OZIP with any known key" exactly in that
    case. *)
Theorem decrypt_ozip_first_validating_key (ozip : bytes) (st : state) :
  cancel_requested st = false →
  0x1050 ≤ Z.of_nat (length ozip) →
  (∀ pre key_hex post,
     KEYS = pre ++ key_hex :: post →
     Forall (λ key_hex', ¬ validates aes_decrypt_block ozip key_hex') pre →
     validates aes_decrypt_block ozip key_hex →
     ∃ st',
       decrypt_ozip aes_decrypt_block ozip st = (st', Return true)
       ∧ aes_new_calls st'
         = aes_new_calls st ++ (key_bytes <$> pre ++ [key_hex])
       ∧ successful_key st' = Some key_hex
       ∧ output st' = Some (trial_plaintext aes_decrypt_block ozip key_hex))
  ∧ (Forall (λ key_hex, ¬ validates aes_decrypt_block ozip key_hex) KEYS →
     decrypt_ozip aes_decrypt_block ozip st
     = (with_aes_new (key_bytes <$> KEYS) st,
        Raise (Exception "Failed to decrypt OZIP with any known key")))
  ∧ ((∃ st',
        decrypt_ozip aes_decrypt_block ozip st
        = (st', Raise (Exception "Failed to decrypt OZIP with any known key")))
     ↔ Forall (λ key_hex, ¬ validates aes_decrypt_block ozip key_hex) KEYS).
Proof.
  intros Hc Hlen. pose proof KEYS_valid as Hv.
  assert (Forall (λ key_hex, ¬ validates aes_decrypt_block ozip key_hex) KEYS →
          decrypt_ozip aes_decrypt_block ozip st
          = (with_aes_new (key_bytes <$> KEYS) st,
             Raise (Exception "Failed to decrypt OZIP with any known key")))
    as Hnone.
  { intros Hn. rewrite decrypt_ozip_large by done. by apply try_keys_none. }
  split_and!; [|done|split].
  - intros pre key_hex post HK Hpre Hk. eexists. split.
    { rewrite decrypt_ozip_large by done. rewrite HK in Hv |- *.
      by apply try_keys_first. }
    split_and!; [|done..]. cbn. by rewrite fmap_app, (assoc_L (++)).
  - intros [st' Hraise].
    destruct (decrypt_ozip_outcome ozip st Hc Hlen)
      as [[Hn _]|(pre & key_hex & post & _ & _ & _ & Hrun)]; [done|].
    rewrite Hrun in Hraise. discriminate.
  - intros Hn. eexists. by apply Hnone.
Qed.

(** C7. [decrypt_ozip] raises "OZIP file is too small to be valid"
    exactly when the container has fewer than 0x1050 bytes, and what it
    does is the same whatever the first 12 bytes are. *)
Theorem decrypt_ozip_too_small_iff_magic_ignored
    (ozip magic : bytes) (st : state) :
  length magic = 12%nat →
  ((∃ st',
      decrypt_ozip aes_decrypt_block ozip st
      = (st', Raise (Exception "OZIP file is too small to be valid")))
   ↔ Z.of_nat (length ozip) < 0x1050)
  ∧ decrypt_ozip aes_decrypt_block (magic ++ drop 12 ozip) st
    = decrypt_ozip aes_decrypt_block ozip st.
Proof.
  intros Hmagic. split; [split|].
  - intros [st' Hraise].
    destruct (decide (Z.of_nat (length ozip) < 0x1050)) as [|Hlen]; [done|].
    exfalso. destruct (cancel_requested st) eqn:Hc.
    + rewrite decrypt_ozip_large in Hraise by lia. unfold KEYS in Hraise.
      rewrite try_keys_cancelled in Hraise by done. discriminate.
    + destruct (decrypt_ozip_outcome ozip st Hc ltac:(lia))
        as [[_ Hrun]|(pre & key_hex & post & _ & _ & _ & Hrun)];
        rewrite Hrun in Hraise; discriminate.
  - intros Hlen. eexists. by apply decrypt_ozip_small.
  - destruct (decide (Z.of_nat (length ozip) < 0x1050)) as [Hlen|Hlen].
    + rewrite !decrypt_ozip_small; [done|done|].
      rewrite length_app, length_drop. lia.
    + assert (length (magic ++ drop 12 ozip) = length ozip) as Hsame
        by (rewrite length_app, length_drop; lia).
      rewrite !decrypt_ozip_large by (rewrite ?Hsame; lia). rewrite Hsame.
      apply try_keys_body. unfold ozip_body.
      rewrite drop_app_ge by lia.
      by rewrite drop_drop, Hmagic.
Qed.

(** C9. For every chunk size that is a multiple of 16, the loop of
    [encrypt_to_ozip] writes what the single-chunk reference writes (the
    whole archive padded and encrypted at once), so two such chunk sizes
    give the same output; the chunk size 0x4000 of [encrypt_to_ozip] is
    one of them. *)
Theorem encrypt_chunks_chunk_size_independent
    (c : cipher) (block_size block_size' : positive) (zip_file : bytes)
    (st : state) (old : bytes) :
  Z.pos block_size `mod` 16 = 0 →
  Z.pos block_size' `mod` 16 = 0 →
  cancel_requested st = false →
  output st = Some old →
  encrypt_chunks aes_encrypt_block c block_size zip_file
    (Z.of_nat (length zip_file)) 0 st
  = encrypt_chunks aes_encrypt_block c block_size' zip_file
      (Z.of_nat (length zip_file)) 0 st
  ∧ encrypt_chunks aes_encrypt_block c block_size zip_file
      (Z.of_nat (length zip_file)) 0 st
    = encrypt_single_chunk aes_encrypt_block c zip_file st
  ∧ encrypt_chunks aes_encrypt_block c 0x4000 zip_file
      (Z.of_nat (length zip_file)) 0 st
    = encrypt_single_chunk aes_encrypt_block c zip_file st.
Proof.
  intros Hbs Hbs' Hc Hout.
  rewrite !(encrypt_chunks_single _ _ _ _ old) by done. done.
Qed.

(** C2, as the code has it. A chunk whose length is not a multiple of 16
    is extended to the next multiple of 16 with [k] bytes of value [k],
    where [k] is the number of bytes missing (PKCS#7, the default style of
    [pad]): the filler is never a zero byte.  This is what both loops
    pass to the cipher: the loop of [decrypt_ozip] leaves, and the loop of
    [encrypt_to_ozip] writes, the blocks of the input followed by that
    filler. *)
Theorem partial_chunk_padded_pkcs7
    (c : cipher) (data : bytes) (st : state) (old : bytes) :
  Z.of_nat (length data) `mod` 16 ≠ 0 →
  cancel_requested st = false →
  output st = Some old →
  let k := (16 - length data `mod` 16)%nat in
  let filled := data ++ replicate k (bchr k) in
  (1 ≤ k ≤ 15)%nat
  ∧ bchr k ≠ x00
  ∧ pad_if_needed data = filled
  ∧ decrypt_chunks aes_decrypt_block st c data (Z.of_nat (length data)) 0 []
    = Return (ecb (aes_decrypt_block (cipher_key c)) filled)
  ∧ output
      (encrypt_chunks aes_encrypt_block c 0x4000 data
         (Z.of_nat (length data)) 0 st).1
    = Some (write_at (position st)
              (ecb (aes_encrypt_block (cipher_key c)) filled) old).
Proof.
  intros Hmod Hc Hout k filled.
  assert (1 ≤ k ≤ 15)%nat as Hk.
  { subst k. rewrite mod_16_nat in Hmod.
    pose proof (Nat.mod_upper_bound (length data) 16 ltac:(done)). lia. }
  assert (pad_if_needed data = filled) as Hpad
    by (by apply pad_if_needed_partial).
  split_and!; [lia..| |done| |].
  - intros Hz%bchr_zero; lia.
  - rewrite decrypt_chunks_run by (done || lia). by rewrite Hpad.
  - rewrite (encrypt_chunks_run _ _ _ _ _ _ old) by (done || lia).
    cbv zeta. by rewrite Hpad.
Qed.

End CipherProofs.

(** ** The cipher loops on concrete containers *)

Lemma decrypt_ozip_first_validating_key_witness :
  ∃ st',
    decrypt_ozip xor_block third_key_ozip init = (st', Return true)
    ∧ aes_new_calls st'
      = aes_new_calls init ++ (key_bytes <$> take 2 KEYS ++ [third_key])
    ∧ successful_key st' = Some third_key
    ∧ output st' = Some (trial_plaintext xor_block third_key_ozip third_key).
Proof.
  apply (proj1 (decrypt_ozip_first_validating_key xor_block third_key_ozip
                  init eq_refl ltac:(compute_done))
           (take 2 KEYS) third_key (drop 3 KEYS)).
  - reflexivity.
  - compute_done.
  - compute_done.
Defined.

(** Three keys are tried, and the third one gives the archive. *)
Example decrypt_ozip_third_key :
  decrypt_ozip xor_block third_key_ozip init
  = (decrypted_state third_key (zip_magic ++ replicate 12 x00)
       (with_aes_new (key_bytes <$> take 2 KEYS) init),
     Return true).
Proof. compute_done. Qed.

(** With a body no key validates, every key is tried once. *)
Example decrypt_ozip_no_key :
  decrypt_ozip plain_block (ozip_header ++ replicate 16 x00) init
  = (with_aes_new (key_bytes <$> KEYS) init,
     Raise (Exception "Failed to decrypt OZIP with any known key")).
Proof. compute_done. Qed.

Lemma decrypt_ozip_too_small_iff_magic_ignored_witness :
  ((∃ st',
      decrypt_ozip xor_block third_key_ozip init
      = (st', Raise (Exception "OZIP file is too small to be valid")))
   ↔ Z.of_nat (length third_key_ozip) < 0x1050)
  ∧ decrypt_ozip xor_block (replicate 12 x00 ++ drop 12 third_key_ozip) init
    = decrypt_ozip xor_block third_key_ozip init.
Proof.
  apply (decrypt_ozip_too_small_iff_magic_ignored
           xor_block third_key_ozip (replicate 12 x00) init).
  reflexivity.
Defined.

Lemma encrypt_chunks_chunk_size_independent_witness :
  encrypt_chunks xor_block (Cipher (key_bytes third_key)) 16 sample_archive
    (Z.of_nat (length sample_archive)) 0 opened
  = encrypt_chunks xor_block (Cipher (key_bytes third_key)) 32 sample_archive
      (Z.of_nat (length sample_archive)) 0 opened
  ∧ encrypt_chunks xor_block (Cipher (key_bytes third_key)) 16 sample_archive
      (Z.of_nat (length sample_archive)) 0 opened
    = encrypt_single_chunk xor_block (Cipher (key_bytes third_key))
        sample_archive opened
  ∧ encrypt_chunks xor_block (Cipher (key_bytes third_key)) 0x4000
      sample_archive (Z.of_nat (length sample_archive)) 0 opened
    = encrypt_single_chunk xor_block (Cipher (key_bytes third_key))
        sample_archive opened.
Proof.
  apply (encrypt_chunks_chunk_size_independent xor_block
           (Cipher (key_bytes third_key)) 16 32 sample_archive opened []);
    reflexivity.
Defined.

(** A chunk size that is no multiple of 16 gives another output: each
    chunk of 8 bytes is padded on its own. *)
Example encrypt_chunks_unaligned_chunk_size :
  (encrypt_chunks plain_block (Cipher []) 8 (replicate 16 x01) 16 0 opened).1
  = with_output
      (Some (replicate 8 x01 ++ replicate 8 x08
             ++ replicate 8 x01 ++ replicate 8 x08)) 32 opened
  ∧ (encrypt_chunks plain_block (Cipher []) 16 (replicate 16 x01) 16 0
       opened).1
    = with_output (Some (replicate 16 x01)) 16 opened.
Proof. split; compute_done. Qed.

(** C2, as the specification has it, fails on a chunk of one byte: the
    15 bytes of filler are 0x0f, in both loops. *)
Lemma partial_chunk_not_zero_extended :
  Z.of_nat (length [x01]) `mod` 16 ≠ 0
  ∧ pad_if_needed [x01] = [x01] ++ replicate 15 x0f
  ∧ pad_if_needed [x01] ≠ zero_extend [x01]
  ∧ decrypt_chunks plain_block init (Cipher []) [x01] 1 0 []
    = Return ([x01] ++ replicate 15 x0f)
  ∧ output (encrypt_chunks plain_block (Cipher []) 0x4000 [x01] 1 0 opened).1
    = Some ([x01] ++ replicate 15 x0f).
Proof. split_and!; compute_done. Qed.

Lemma partial_chunk_padded_pkcs7_witness :
  (1 ≤ 15 ≤ 15)%nat
  ∧ bchr 15 ≠ x00
  ∧ pad_if_needed [x01] = [x01] ++ replicate 15 (bchr 15)
  ∧ decrypt_chunks plain_block opened (Cipher []) [x01] 1 0 []
    = Return (ecb (plain_block []) ([x01] ++ replicate 15 (bchr 15)))
  ∧ output (encrypt_chunks plain_block (Cipher []) 0x4000 [x01] 1 0 opened).1
    = Some (write_at 0 (ecb (plain_block []) ([x01] ++ replicate 15 (bchr 15)))
              []).
Proof.
  apply (partial_chunk_padded_pkcs7 plain_block plain_block (Cipher []) [x01]
           opened []).
  - compute_done.
  - reflexivity.
  - reflexivity.
Defined.

(** * Further properties of the converter *)

(** ** Images of any length *)

Lemma image_of_one_new_resize (n : Z) (img : bytes) :
  0 ≤ n →
  image_of [("new", [(0, n)])] img = resize (Z.to_nat (n * block_size)) x00 img.
Proof.
  intros Hn. unfold image_of, extent.
  change (ops_of [("new", [(0, n)])]) with [(New, 0, n)].
  cbn [foldl foldr snd]. rewrite Z.max_l by lia.
  rewrite apply_op_eq. unfold op_data. cbn [fst snd].
  change (Z.to_nat (0 * block_size)) with 0%nat. rewrite Z.sub_0_r.
  apply write_at_all. by rewrite length_resize, length_replicate.
Qed.

(** [convert_img_to_dat] followed by [convert_dat_to_img] returns, for an
    image of any length, the image followed by the zero bytes that fill its
    last block; the image itself comes back exactly when its length is a
    multiple of 4096. *)
Theorem convert_img_to_dat_to_img_fills_last_block
    (os : Py.platform) (img : bytes) (st : state) :
  cancel_requested st = false →
  ∃ st',
    (convert_img_to_dat os img ≫= λ '(transfer_list, dat),
       convert_dat_to_img transfer_list dat) st
    = (st', Return ())
    ∧ output st' = Some (img ++ replicate (block_fill (length img)) x00)
    ∧ (output st' = Some img ↔ Z.of_nat (length img) `mod` block_size = 0).
Proof.
  intros Hc. rewrite bind_run, convert_img_to_dat_run.
  set (n := (Z.of_nat (length img) + block_size - 1) `div` block_size).
  assert (0 ≤ n ∧ n * block_size
          = Z.of_nat (length img) + (- Z.of_nat (length img)) `mod` block_size)
    as [Hn Hlen].
  { subst n. unfold block_size. Z.div_mod_to_equations. lia. }
  assert (0 ≤ (- Z.of_nat (length img)) `mod` block_size) as Hfill
    by (apply Z.mod_pos_bound; done).
  set (st1 := with_messages _ st).
  destruct (convert_dat_to_img_run
              (Py.text_write os (transfer_text n)) img st1 st1
              [("new", [(0, n)])]) as (st' & -> & Hout).
  - by apply parse_transfer_text.
  - done.
  - done.
  - unfold starts_nonneg. by repeat constructor.
  - exists st'. split; [done|].
    rewrite Hout, image_of_one_new_resize by done.
    rewrite resize_ge by lia.
    replace (Z.to_nat (n * block_size) - length img)%nat
      with (block_fill (length img)) by (unfold block_fill; lia).
    split; [done|]. split.
    + intros [= Heq]. apply (f_equal length) in Heq.
      rewrite length_app, length_replicate in Heq. unfold block_fill in Heq.
      revert Heq Hfill. unfold block_size. intros Heq Hfill.
      Z.div_mod_to_equations. lia.
    + intros Hmod. unfold block_fill.
      replace ((- Z.of_nat (length img)) `mod` block_size) with 0.
      * by rewrite app_nil_r.
      * revert Hmod. unfold block_size. intros Hmod.
        Z.div_mod_to_equations. lia.
Qed.

Lemma convert_img_to_dat_to_img_fills_last_block_witness :
  ∃ st',
    (convert_img_to_dat Py.Posix [x01; x02; x03] ≫= λ '(transfer_list, dat),
       convert_dat_to_img transfer_list dat) init
    = (st', Return ())
    ∧ output st'
      = Some ([x01; x02; x03] ++ replicate (block_fill (length [x01; x02; x03])) x00)
    ∧ (output st' = Some [x01; x02; x03]
       ↔ Z.of_nat (length [x01; x02; x03]) `mod` block_size = 0).
Proof.
  apply (convert_img_to_dat_to_img_fills_last_block Py.Posix [x01; x02; x03]
           init).
  reflexivity.
Defined.

(** ** A cancelled conversion *)

(** When cancellation was requested, [convert_dat_to_img] on a transfer
    list with a command, whose image ends at an offset below 2^63, raises
    "Conversion cancelled by user" at the first command, after it has
    created the image file and filled it with zero bytes to its full
    length. *)
Theorem convert_dat_to_img_cancelled
    (transfer_list : string) (dat : bytes) (st st1 : state)
    (commands : list command) :
  parse_transfer_list transfer_list st = (st1, Return commands) →
  commands ≠ [] →
  cancel_requested st = true →
  extent commands * block_size < max_offset →
  convert_dat_to_img transfer_list dat st
  = (with_output
       (Some (replicate (Z.to_nat (extent commands * block_size)) x00)) 0 st1,
     Raise (Exception "Conversion cancelled by user")).
Proof.
  intros Hparse Hne Hc _. unfold convert_dat_to_img.
  rewrite bind_run, Hparse.
  apply parse_keeps_cancel in Hparse as [Hc1 _]. rewrite Hc in Hc1.
  destruct commands as [|[cmd ranges] commands]; [done|].
  pose proof (extent_nonneg ((cmd, ranges) :: commands)) as Hext.
  pose proof block_size_pos.
  unfold materialize.
  rewrite bind_run. unfold open_wb, set_output.
  rewrite bind_run, (truncate_run _ _ []);
    [|done|rewrite max_block_of_extent; by apply Z.mul_nonneg_nonneg].
  rewrite with_output_twice, resize_nil, max_block_of_extent.
  cbn [position with_output]. rewrite bind_run.
  cbn [apply_commands]. rewrite bind_run.
  unfold get_cancel_requested. by rewrite cancel_with_output, Hc1.
Qed.

Lemma convert_dat_to_img_cancelled_witness :
  convert_dat_to_img overlap_document overlap_dat (with_cancel true init)
  = (with_output
       (Some (replicate
                (Z.to_nat (extent [("new", [(0, 2)]); ("zero", [(0, 1)])]
                           * block_size)) x00))
       0 (with_cancel true init),
     Raise (Exception "Conversion cancelled by user")).
Proof.
  apply (convert_dat_to_img_cancelled overlap_document overlap_dat
           (with_cancel true init) (with_cancel true init)).
  - vm_compute. reflexivity.
  - discriminate.
  - reflexivity.
  - compute_done.
Defined.

(** ** What is read of the dat file *)

Lemma apply_ops_more_source ops img dat extra :
  (consumed ops ≤ length dat)%nat →
  foldl apply_op (img, dat ++ extra) ops
  = ((foldl apply_op (img, dat) ops).1,
     (foldl apply_op (img, dat) ops).2 ++ extra).
Proof.
  revert img dat. induction ops as [|op ops IH]; intros img dat Hlen; [done|].
  cbn [consumed foldr] in Hlen. fold (consumed ops) in Hlen.
  cbn [foldl]. rewrite !apply_op_eq. cbn [fst snd].
  assert (op_data (dat ++ extra) op = op_data dat op) as ->.
  { destruct op as [[[] s] e]; unfold op_data; cbn [fst snd]; [|done].
    unfold blocks_read in Hlen. cbn [fst snd] in Hlen.
    rewrite blocks_bytes in Hlen. apply resize_app_le. lia. }
  rewrite drop_app_le by lia. apply IH. rewrite length_drop. lia.
Qed.

(** [convert_dat_to_img] reads of the dat file only the blocks its [new]
    ranges call for: bytes after them change nothing of the image (for a
    document whose ranges start at a block at or after 0, with the starts
    and the image end at offsets below 2^63, and no cancel requested). *)
Theorem convert_dat_to_img_ignores_rest_of_dat
    (transfer_list : string) (dat extra : bytes) (st st1 : state)
    (commands : list command) :
  parse_transfer_list transfer_list st = (st1, Return commands) →
  commands ≠ [] →
  cancel_requested st = false →
  in_reach commands →
  (consumed (ops_of commands) ≤ length dat)%nat →
  ∃ st' st'',
    convert_dat_to_img transfer_list dat st = (st', Return ())
    ∧ convert_dat_to_img transfer_list (dat ++ extra) st = (st'', Return ())
    ∧ output st'' = output st'.
Proof.
  intros Hparse Hne Hc Hpos%in_reach_nonneg Hlen.
  destruct (convert_dat_to_img_run transfer_list dat st st1 commands)
    as (st' & Hrun & Hout); [done..|].
  destruct (convert_dat_to_img_run transfer_list (dat ++ extra) st st1 commands)
    as (st'' & Hrun' & Hout'); [done..|].
  exists st', st''. split_and!; [done..|].
  rewrite Hout, Hout'. unfold image_of.
  by rewrite apply_ops_more_source.
Qed.

Lemma convert_dat_to_img_ignores_rest_of_dat_witness :
  ∃ st' st'',
    convert_dat_to_img overlap_document overlap_dat init = (st', Return ())
    ∧ convert_dat_to_img overlap_document (overlap_dat ++ [x07; x08]) init
      = (st'', Return ())
    ∧ output st'' = output st'.
Proof.
  apply (convert_dat_to_img_ignores_rest_of_dat overlap_document overlap_dat
           [x07; x08] init init [("new", [(0, 2)]); ("zero", [(0, 1)])]).
  - vm_compute. reflexivity.
  - discriminate.
  - reflexivity.
  - unfold in_reach, starts_in_reach. compute_done.
  - compute_done.
Defined.

(** ** Commands without a range *)

(** A transfer list that parses to commands none of which has a range
    (as a line does whose values are no integers) makes
    [convert_dat_to_img] return normally and leave an empty image. *)
Theorem convert_dat_to_img_no_range
    (transfer_list : string) (dat : bytes) (st st1 : state)
    (commands : list command) :
  parse_transfer_list transfer_list st = (st1, Return commands) →
  commands ≠ [] →
  cancel_requested st = false →
  ops_of commands = [] →
  ∃ st',
    convert_dat_to_img transfer_list dat st = (st', Return ())
    ∧ output st' = Some [].
Proof.
  intros Hparse Hne Hc Hops.
  destruct (convert_dat_to_img_run transfer_list dat st st1 commands)
    as (st' & Hrun & Hout); [done..| |].
  { unfold starts_nonneg. rewrite Hops. constructor. }
  exists st'. split; [done|]. rewrite Hout. unfold image_of, extent.
  by rewrite Hops.
Qed.

Lemma convert_dat_to_img_no_range_witness :
  ∃ st',
    convert_dat_to_img no_range_document [x01] init = (st', Return ())
    ∧ output st' = Some [].
Proof.
  apply (convert_dat_to_img_no_range no_range_document [x01] init
           (with_messages ["Warning: Invalid range values in line: new 0,x"]
              init)
           [("new", [])]).
  - vm_compute. reflexivity.
  - discriminate.
  - reflexivity.
  - reflexivity.
Defined.

(** ** A range that starts before block 0 *)

Lemma new_ranges_negative ranges1 start end_ ranges2 dat old st :
  output st = Some old →
  Forall (λ r, 0 ≤ r.1) ranges1 →
  start < 0 →
  ∃ p',
    new_ranges (ranges1 ++ (start, end_) :: ranges2) dat st
    = (with_output
         (Some (foldl apply_op (old, dat)
                  ((λ r, (New, r.1, r.2)) <$> ranges1)).1) p' st,
       Raise (OSError "[Errno 22] Invalid argument")).
Proof.
  revert dat old st. induction ranges1 as [|[s e] ranges1 IH];
    intros dat old st Hout Hpos Hneg.
  - exists (position st). cbn [app new_ranges fmap list_fmap foldl fst].
    rewrite bind_run, (seek_negative _ _ old)
      by (done || pose proof block_size_pos; nia).
    by rewrite <-Hout, with_output_id.
  - apply Forall_cons in Hpos as [Hs Hpos]. cbn in Hs.
    cbn [app new_ranges]. rewrite bind_run.
    rewrite (seek_run _ _ old) by (done || pose proof block_size_pos; lia).
    rewrite bind_run, (copy_blocks_run _ _ old) by done.
    autorewrite with state_proj.
    edestruct (IH (drop (Z.to_nat (e - s) * Z.to_nat block_size) dat))
      as [p' ->]; [done..|].
    autorewrite with state_proj. by exists p'.
Qed.

Lemma zero_ranges_negative ranges1 start end_ ranges2 dat old st :
  output st = Some old →
  Forall (λ r, 0 ≤ r.1) ranges1 →
  start < 0 →
  ∃ p',
    zero_ranges (ranges1 ++ (start, end_) :: ranges2) st
    = (with_output
         (Some (foldl apply_op (old, dat)
                  ((λ r, (Zero, r.1, r.2)) <$> ranges1)).1) p' st,
       Raise (OSError "[Errno 22] Invalid argument")).
Proof.
  revert old st. induction ranges1 as [|[s e] ranges1 IH];
    intros old st Hout Hpos Hneg.
  - exists (position st). cbn [app zero_ranges fmap list_fmap foldl fst].
    rewrite bind_run, (seek_negative _ _ old)
      by (done || pose proof block_size_pos; nia).
    by rewrite <-Hout, with_output_id.
  - apply Forall_cons in Hpos as [Hs Hpos]. cbn in Hs.
    cbn [app zero_ranges]. rewrite bind_run.
    rewrite (seek_run _ _ old) by (done || pose proof block_size_pos; lia).
    rewrite bind_run, (write_run _ _ old) by done.
    autorewrite with state_proj.
    edestruct IH as [p' ->]; [done..|].
    autorewrite with state_proj. by exists p'.
Qed.

(** The commands before a point, then the rest on what is left of the
    source. *)
Lemma apply_commands_app pre rest dat old st :
  cancel_requested st = false →
  output st = Some old →
  Forall (λ op : range_op, 0 ≤ op.1.2) (ops_of pre) →
  ∃ p',
    apply_commands (pre ++ rest) dat st
    = apply_commands rest (foldl apply_op (old, dat) (ops_of pre)).2
        (with_output (Some (foldl apply_op (old, dat) (ops_of pre)).1) p' st).
Proof.
  revert dat old st. induction pre as [|[cmd ranges] pre IH];
    intros dat old st Hc Hout Hpos.
  { exists (position st). cbn. by rewrite <-Hout, with_output_id. }
  unfold ops_of in Hpos |- *. rewrite bind_cons in Hpos |- *.
  apply Forall_app in Hpos as [Hpos1 Hpos2]. rewrite foldl_app.
  cbn [app apply_commands]. rewrite bind_run. unfold get_cancel_requested.
  rewrite Hc. unfold ops_of_command in Hpos1 |- *. cbn [fst snd] in Hpos1 |- *.
  case_bool_decide as Hnew; [|case_bool_decide as Hzero].
  - rewrite Forall_fmap in Hpos1.
    destruct (new_ranges_run ranges dat old st) as [p1 H1]; [done..|].
    rewrite bind_run, H1.
    edestruct (IH (foldl apply_op (old, dat) ((λ r, (New, r.1, r.2)) <$> ranges)).2)
      as [p' ->]; [done..|].
    rewrite with_output_twice. exists p'. by rewrite <-surjective_pairing.
  - rewrite Forall_fmap in Hpos1.
    destruct (zero_ranges_run ranges dat old st) as (p1 & H1 & Hdat); [done..|].
    rewrite bind_run, H1.
    edestruct (IH dat) as [p' ->]; [done..|].
    rewrite with_output_twice. exists p'.
    rewrite <-Hdat at 2 4. by rewrite <-surjective_pairing.
  - cbn [foldl]. by apply IH.
Qed.

(** A range whose start is negative, at an offset from -2^63 on, makes
    [convert_dat_to_img] raise the [OSError] of [seek], when no cancel was
    requested, the ranges before it start at a block at or after 0, and
    their starts and the image end are at offsets below 2^63; the image
    file is left with its full length and with what the ranges before it
    have written. *)
Theorem convert_dat_to_img_negative_start
    (transfer_list : string) (dat : bytes) (st st1 : state)
    (pre post : list command) (cmd : string)
    (ranges1 ranges2 : list (Z * Z)) (start end_ : Z) :
  let commands := pre ++ (cmd, ranges1 ++ (start, end_) :: ranges2) :: post in
  parse_transfer_list transfer_list st = (st1, Return commands) →
  cancel_requested st = false →
  is_transfer_cmd cmd = true →
  extent commands * block_size < max_offset →
  starts_in_reach (pre ++ [(cmd, ranges1)]) →
  - max_offset ≤ start * block_size < 0 →
  ∃ st',
    convert_dat_to_img transfer_list dat st
    = (st', Raise (OSError "[Errno 22] Invalid argument"))
    ∧ output st'
      = Some (foldl apply_op
                (replicate (Z.to_nat (extent commands * block_size)) x00, dat)
                (ops_of (pre ++ [(cmd, ranges1)]))).1.
Proof.
  intros commands Hparse Hc Hcmd _ Hpos%starts_in_reach_nonneg [_ Hneg].
  assert (start < 0) as Hstart by (pose proof block_size_pos; nia).
  clear Hneg. rename Hstart into Hneg. unfold convert_dat_to_img.
  rewrite bind_run, Hparse.
  apply parse_keeps_cancel in Hparse as [Hc1 _]. rewrite Hc in Hc1.
  pose proof (extent_nonneg commands) as Hext. pose proof block_size_pos.
  assert (commands ≠ []) as Hne by (subst commands; by destruct pre).
  unfold materialize. destruct commands as [|c cs] eqn:Hcs; [done|].
  rewrite <-Hcs in *. clear Hcs c cs.
  rewrite bind_run. unfold open_wb, set_output.
  rewrite bind_run, (truncate_run _ _ []);
    [|done|rewrite max_block_of_extent; by apply Z.mul_nonneg_nonneg].
  rewrite with_output_twice, resize_nil, max_block_of_extent.
  cbn [position with_output]. rewrite bind_run.
  set (zeros := replicate _ x00).
  unfold starts_nonneg, ops_of in Hpos. rewrite bind_app in Hpos.
  apply Forall_app in Hpos as [Hpre Hr1].
  cbn [mbind list_bind] in Hr1. rewrite app_nil_r in Hr1.
  subst commands.
  edestruct (apply_commands_app pre) as [p' ->]; [done|done|exact Hpre|].
  rewrite with_output_twice.
  unfold ops_of at 3. rewrite bind_app, foldl_app.
  cbn [mbind list_bind]. rewrite app_nil_r.
  cbn [apply_commands]. rewrite bind_run. unfold get_cancel_requested.
  rewrite cancel_with_output, Hc1.
  set (f := foldl apply_op (zeros, dat) (ops_of pre)) in *.
  unfold is_transfer_cmd in Hcmd. apply bool_decide_eq_true in Hcmd.
  unfold ops_of_command in Hr1 |- *. cbn [fst snd] in Hr1 |- *.
  case_bool_decide as Hnew; [|case_bool_decide as Hzero].
  - rewrite Forall_fmap in Hr1.
    edestruct (new_ranges_negative ranges1 start end_ ranges2 f.2 f.1
                 (with_output (Some f.1) p' st1)) as [p1 H1]; [done..|].
    rewrite bind_run, H1, with_output_twice.
    eexists. split; [done|]. by rewrite <-surjective_pairing.
  - rewrite Forall_fmap in Hr1.
    edestruct (zero_ranges_negative ranges1 start end_ ranges2 f.2 f.1
                 (with_output (Some f.1) p' st1)) as [p1 H1]; [done..|].
    rewrite bind_run, H1, with_output_twice.
    eexists. split; [done|]. by rewrite <-surjective_pairing.
  - exfalso. revert Hcmd Hnew Hzero.
    rewrite !elem_of_cons, !elem_of_nil. tauto.
Qed.

Lemma convert_dat_to_img_negative_start_witness :
  ∃ st',
    convert_dat_to_img negative_start_document [x01] init
    = (st', Raise (OSError "[Errno 22] Invalid argument"))
    ∧ output st'
      = Some (foldl apply_op
                (replicate
                   (Z.to_nat
                      (extent ([("zero", [(0, 1)])]
                               ++ ("new", [(1, 2)] ++ (-1, 3) :: []) :: [])
                       * block_size)) x00, [x01])
                (ops_of ([("zero", [(0, 1)])] ++ [("new", [(1, 2)])]))).1.
Proof.
  apply (convert_dat_to_img_negative_start negative_start_document [x01]
           init init [("zero", [(0, 1)])] [] "new" [(1, 2)] [] (-1) 3).
  - vm_compute. reflexivity.
  - reflexivity.
  - reflexivity.
  - compute_done.
  - unfold starts_in_reach. compute_done.
  - compute_done.
Defined.

(** The image keeps the block the first [new] range wrote. *)
Example convert_dat_to_img_negative_start_image :
  output (convert_dat_to_img negative_start_document [x01] init).1
  = Some (replicate (Z.to_nat 4096) x00
          ++ [x01] ++ replicate (Z.to_nat 4095) x00
          ++ replicate (Z.to_nat 4096) x00).
Proof. compute_done. Qed.

(** ** The parser on any text *)

Lemma parse_pairs_indep (line : string) (ranges : list string) :
  ∃ msgs rs, ∀ range_set st,
    parse_pairs line ranges range_set st
    = (with_messages msgs st, Return (range_set ++ rs)).
Proof.
  cut (∀ ranges,
    (∃ msgs rs, ∀ range_set st,
       parse_pairs line ranges range_set st
       = (with_messages msgs st, Return (range_set ++ rs)))
    ∧ (∀ a, ∃ msgs rs, ∀ range_set st,
         parse_pairs line (a :: ranges) range_set st
         = (with_messages msgs st, Return (range_set ++ rs)))).
  { intros H. apply H. }
  clear. intros ranges. induction ranges as [|b rest [IH1 IH2]].
  - split; [|intros a]; exists [], []; intros;
      by rewrite with_messages_nil, app_nil_r.
  - split; [apply IH2|]. intros a. destruct IH1 as (msgs & rs & IH1).
    destruct (Py.int a) as [start|] eqn:Ea, (Py.int b) as [end_|] eqn:Eb.
    { exists msgs, ((start, end_) :: rs). intros range_set st.
      cbn. rewrite Ea, Eb, IH1. by rewrite <-(assoc_L (++)). }
    all: exists (("Warning: Invalid range values in line: " +:+ line) :: msgs), rs;
      intros range_set st; cbn; rewrite Ea, ?Eb, bind_run; cbn;
      rewrite IH1; by rewrite with_messages_app.
Qed.

Lemma parse_lines_indep (lines : list string) :
  ∃ msgs cs,
    Forall (λ c : command, is_transfer_cmd c.1 = true) cs
    ∧ ∀ commands st,
        parse_lines lines commands st
        = (with_messages msgs st, Return (commands ++ cs)).
Proof.
  induction lines as [|l rest (msgs & cs & Hcs & IH)].
  { exists [], []. split; [done|]. intros.
    by rewrite with_messages_nil, app_nil_r. }
  cbn [parse_lines]. cbv zeta.
  destruct (_ || _); [by exists msgs, cs|].
  destruct (Py.split " " (Py.strip l)) as [|cmd [|ranges_str parts]];
    [by exists msgs, cs..|].
  destruct (is_transfer_cmd cmd) eqn:Hcmd; [|by exists msgs, cs].
  case_bool_decide.
  - exists (("Warning: Invalid range format in line: " +:+ Py.strip l) :: msgs), cs.
    split; [done|]. intros commands st. rewrite bind_run. cbn.
    by rewrite IH, with_messages_app.
  - destruct (parse_pairs_indep (Py.strip l) (Py.split "," ranges_str))
      as (msgs1 & rs & Hrs).
    exists (msgs1 ++ msgs), ((cmd, rs) :: cs). split; [by constructor|].
    intros commands st. rewrite bind_run, Hrs, IH. cbn [app].
    by rewrite with_messages_app, <-(assoc_L (++)).
Qed.

Lemma parse_lines_parsed lines commands st :
  parse_lines lines commands st
  = (with_messages (warnings lines) st, Return (commands ++ parsed lines)).
Proof.
  destruct (parse_lines_indep lines) as (msgs & cs & _ & H).
  unfold parsed, warnings. by rewrite !H.
Qed.

Lemma parse_lines_bind l1 l2 commands st :
  parse_lines (l1 ++ l2) commands st
  = (parse_lines l1 commands ≫= parse_lines l2) st.
Proof.
  revert commands st. induction l1 as [|l l1 IH]; intros commands st; [done|].
  rewrite bind_run. cbn [app parse_lines]. cbv zeta.
  destruct (_ || _); [by rewrite IH, bind_run|].
  destruct (Py.split " " (Py.strip l)) as [|cmd [|ranges_str parts]];
    [by rewrite IH, bind_run..|].
  destruct (is_transfer_cmd cmd); [|by rewrite IH, bind_run].
  case_bool_decide.
  - rewrite !bind_run. cbn. by rewrite IH, bind_run.
  - rewrite !bind_run.
    destruct (parse_pairs_indep (Py.strip l) (Py.split "," ranges_str))
      as (msgs1 & rs & ->).
    by rewrite IH, bind_run.
Qed.

(** The loop over the lines of [parse_transfer_list] treats each line on
    its own: it never raises, it adds to the commands it has those of the
    lines, in the order of the lines, and to the message queue their
    warnings, and these are the same whatever was parsed or logged before;
    so the commands and warnings of two runs of lines put together are
    those of the first followed by those of the second. *)
Theorem parse_lines_by_line (l1 l2 : list string) (commands : list command)
    (st : state) :
  parse_lines (l1 ++ l2) commands st
  = (with_messages (warnings l1 ++ warnings l2) st,
     Return (commands ++ parsed l1 ++ parsed l2))
  ∧ parsed (l1 ++ l2) = parsed l1 ++ parsed l2
  ∧ warnings (l1 ++ l2) = warnings l1 ++ warnings l2.
Proof.
  assert (∀ commands st,
    parse_lines (l1 ++ l2) commands st
    = (with_messages (warnings l1 ++ warnings l2) st,
       Return (commands ++ parsed l1 ++ parsed l2))) as H.
  { intros cs st'. rewrite parse_lines_bind, bind_run, parse_lines_parsed.
    rewrite parse_lines_parsed.
    by rewrite with_messages_app, <-(assoc_L (++)). }
  split; [apply H|]. unfold parsed at 1, warnings at 1. by rewrite !H.
Qed.

(** ** The version line *)

(** On a text whose first line has at most 4300 characters (so that it
    is below the digit limit of [int]), [parse_transfer_list] raises in
    one case only: the first line, stripped, is not a literal for [int]
    and still passes [isdigit] (a superscript digit); the [ValueError]
    leaves the state as it was.  On every other such text it returns
    commands, each of them [erase], [new] or [zero], and changes nothing
    but the message queue, to which it adds its warnings. *)
Theorem parse_transfer_list_raises_iff (transfer_list : string) (st : state) :
  Z.of_nat (String.length (version_line transfer_list)) ≤ max_str_digits →
  (refused_version transfer_list →
   ∃ msg, parse_transfer_list transfer_list st = (st, Raise (ValueError msg)))
  ∧ (¬ refused_version transfer_list →
     ∃ msgs commands,
       parse_transfer_list transfer_list st
       = (with_messages msgs st, Return commands)
       ∧ Forall (λ c : command, c.1 ∈ ["erase"; "new"; "zero"]) commands).
Proof.
  intros _. unfold refused_version, parse_transfer_list.
  destruct (Py.readlines _) as [|line0 lines] eqn:E.
  { split; [done|]. intros _. exists [], []. by rewrite with_messages_nil. }
  assert (∀ v, ∃ msgs commands,
    parse_lines (drop (first_command_line v (line0 :: lines)) (line0 :: lines))
      [] st
    = (with_messages msgs st, Return commands)
    ∧ Forall (λ c : command, c.1 ∈ ["erase"; "new"; "zero"]) commands) as Hrun.
  { intros v. destruct (parse_lines_indep
      (drop (first_command_line v (line0 :: lines)) (line0 :: lines)))
      as (msgs & cs & Hcs & H).
    exists msgs, cs. split; [by rewrite H|].
    eapply Forall_impl; [exact Hcs|]. intros c Hc.
    by apply bool_decide_eq_true in Hc. }
  rewrite bind_run. unfold parse_version.
  destruct (Py.int (Py.strip line0)) as [v|] eqn:Ev.
  - split; [by intros [? _]|]. intros _. apply Hrun.
  - destruct (Py.isdigit (Py.strip line0)) eqn:Ed.
    + split; [by eexists|]. intros Hn. by destruct Hn.
    + split; [by intros [_ ?]|]. intros _. apply Hrun.
Qed.

Lemma parse_transfer_list_raises_iff_witness :
  ∃ msg,
    parse_transfer_list superscript_document init
    = (init, Raise (ValueError msg)).
Proof.
  apply (proj1 (parse_transfer_list_raises_iff superscript_document init
                  ltac:(compute_done))).
  compute_done.
Defined.

(** ** The header lines of a version from 2 on *)

Lemma no_line_break_LF s :
  no_line_break s = true →
  Py.all_chars (λ c, bool_decide (c ≠ "010"%char)) s = true.
Proof. apply all_chars_impl. by intros c [? _]%andb_true_iff. Qed.

Lemma no_line_break_CR s :
  no_line_break s = true →
  Py.all_chars (λ c, bool_decide (c ≠ "013"%char)) s = true.
Proof. apply all_chars_impl. by intros c [_ ?]%andb_true_iff. Qed.

Lemma digits_no_line_break d :
  Py.all_chars is_digit d = true → no_line_break d = true.
Proof.
  apply all_chars_impl. intros c Hc.
  destruct (is_digit_plain c Hc) as (_ & _ & _ & _ & _ & _ & _ & HLF & HCR & _).
  by rewrite !bool_decide_eq_true_2.
Qed.

Lemma text_read_line (l rest : string) :
  Py.all_chars (λ c, bool_decide (c ≠ "013"%char)) l = true →
  Py.text_read (l +:+ LF +:+ rest) = l +:+ LF +:+ Py.text_read rest.
Proof.
  induction l as [|c l IH]; [done|]. rewrite !app_cons. cbn.
  intros [Hc Hl]%andb_true_iff. apply bool_decide_eq_true in Hc.
  rewrite decide_False by done. by rewrite IH.
Qed.

Lemma lines_of_line (l rest : string) :
  no_line_break l = true →
  Py.readlines (Py.text_read (l +:+ LF +:+ rest))
  = (l +:+ LF) :: Py.readlines (Py.text_read rest).
Proof.
  intros Hl. rewrite text_read_line by (by apply no_line_break_CR).
  apply readlines_line. by apply no_line_break_LF.
Qed.

Lemma first_command_line_header
    (version : Z) (l0 l1 l2 l3 : string) (rest : list string) :
  2 ≤ version →
  first_command_line version (l0 :: l1 :: l2 :: l3 :: rest) = 4%nat.
Proof.
  intros Hv. unfold first_command_line.
  rewrite (bool_decide_eq_true_2 (2 ≤ version)) by done.
  set (n := length _). assert (4 ≤ n)%nat as Hn by (subst n; cbn; lia).
  clearbody n. cbv zeta.
  rewrite (bool_decide_eq_true_2 (1 < n)%nat) by lia. cbv iota.
  rewrite (bool_decide_eq_true_2 (2 < n)%nat) by lia. cbv iota.
  by rewrite (bool_decide_eq_true_2 (3 < n)%nat) by lia.
Qed.

Lemma first_command_line_low (version : Z) (lines : list string) :
  version < 2 → first_command_line version lines = 1%nat.
Proof.
  intros Hv. unfold first_command_line.
  by rewrite bool_decide_eq_false_2 by lia.
Qed.

(** For a version from 2 on, of at most 4300 digits, the three lines
    after the version line are passed over without being looked at: the
    transfer list gives what the version-1 list with the same lines after
    them gives, whatever the three lines hold. *)
Theorem parse_transfer_list_skips_header
    (version : Z) (h1 h2 h3 rest : string) (st : state) :
  2 ≤ version < 10 ^ max_str_digits →
  no_line_break h1 = true →
  no_line_break h2 = true →
  no_line_break h3 = true →
  parse_transfer_list
    (Py.str version +:+ LF +:+ h1 +:+ LF +:+ h2 +:+ LF +:+ h3 +:+ LF +:+ rest)
    st
  = parse_transfer_list ("1" +:+ LF +:+ rest) st.
Proof.
  intros [Hv _] H1 H2 H3.
  destruct (str_digits version ltac:(lia)) as (Hne & Hd & Hval).
  unfold parse_transfer_list.
  rewrite !lines_of_line by (done || by apply digits_no_line_break).
  rewrite !bind_run, !strip_digits_LF by done.
  unfold parse_version. rewrite int_str by lia.
  change (Py.int "1") with (Some 1). cbn [mret M_ret].
  by rewrite first_command_line_header, first_command_line_low by done.
Qed.

Lemma parse_transfer_list_skips_header_witness :
  parse_transfer_list
    (Py.str 4 +:+ LF +:+ "new 0,9" +:+ LF +:+ "zero 0,9" +:+ LF +:+ "x"
     +:+ LF +:+ "new 0,1" +:+ LF)
    init
  = parse_transfer_list ("1" +:+ LF +:+ "new 0,1" +:+ LF) init.
Proof.
  apply (parse_transfer_list_skips_header 4 "new 0,9" "zero 0,9" "x"
           ("new 0,1" +:+ LF) init); [compute_done|reflexivity..].
Defined.

(** ** Well-formed command lines *)

Lemma str_neg (p : positive) :
  Py.str (Z.neg p) = String "-" (Py.str (Z.pos p)).
Proof. done. Qed.

Lemma int_str_Z (n : Z) : Py.int (Py.str n) = Some n.
Proof.
  destruct (decide (0 ≤ n)) as [Hn|Hn]; [by apply int_str|].
  destruct n as [|p|p]; [lia..|]. rewrite str_neg.
  destruct (str_digits (Z.pos p) ltac:(lia)) as (Hne & Hd & Hv).
  destruct (Py.str (Z.pos p)) as [|c d] eqn:E; [done|].
  pose proof Hd as [Hc _]%andb_true_iff.
  unfold Py.int. cbn [Py.lstrip_with].
  change (Py.int_space "-") with false. cbn iota.
  rewrite decide_False, decide_True by done.
  apply bool_decide_eq_true in Hc. destruct (is_Some_dec _) as [_|[]]; [|done].
  rewrite scan_digits_all by done. cbn [Py.all_chars]. by rewrite Hv.
Qed.

Lemma str_plain (n : Z) :
  Py.str n ≠ "" ∧ Py.all_chars is_plain (Py.str n) = true.
Proof.
  assert (∀ m, 0 ≤ m →
    Py.str m ≠ "" ∧ Py.all_chars is_plain (Py.str m) = true) as Hpos.
  { intros m Hm. destruct (str_digits m Hm) as (Hne & Hd & _).
    split; [done|]. revert Hd. apply all_chars_impl. intros c Hc.
    destruct (is_digit_plain c Hc) as (Hsp & _ & _ & Hcomma & _).
    unfold is_plain. by rewrite Hsp, bool_decide_eq_true_2. }
  destruct n as [|p|p]; [by apply Hpos..|]. rewrite str_neg.
  split; [done|]. cbn [Py.all_chars]. by rewrite (proj2 (Hpos (Z.pos p) ltac:(lia))).
Qed.

Lemma plain_no (sep : ascii) (s : string) :
  is_plain sep = false →
  Py.all_chars is_plain s = true →
  Py.all_chars (λ c, bool_decide (c ≠ sep)) s = true.
Proof.
  intros Hsep. apply all_chars_impl. intros c Hc.
  apply bool_decide_eq_true. intros ->. congruence.
Qed.

Lemma split_app_sep (sep : ascii) (a b : string) :
  Py.all_chars (λ c, bool_decide (c ≠ sep)) a = true →
  Py.split sep (a +:+ String sep b) = a :: Py.split sep b.
Proof.
  induction a as [|c a IH]; intros Ha.
  { change ("" +:+ ?t) with t. apply split_cons_eq. }
  apply andb_true_iff in Ha as [Hc Ha]. apply bool_decide_eq_true in Hc.
  rewrite app_cons. apply split_cons_ne; [done|]. by apply IH.
Qed.

Lemma split_join_comma (l : list string) :
  l ≠ [] →
  Forall (λ s, Py.all_chars is_plain s = true) l →
  Py.split "," (join_comma l) = l.
Proof.
  induction l as [|a l IH]; [done|]. intros _ Hl.
  apply Forall_cons in Hl as [Ha Hl].
  destruct l as [|b l].
  { apply split_no_sep. by apply plain_no. }
  change (join_comma (a :: b :: l)) with (a +:+ String "," (join_comma (b :: l))).
  rewrite split_app_sep by (by apply plain_no). f_equal. by apply IH.
Qed.

Lemma numbers_plain (ranges : list (Z * Z)) :
  Forall (λ s, s ≠ "" ∧ Py.all_chars is_plain s = true) (numbers ranges).
Proof.
  unfold numbers. induction ranges as [|r ranges IH]; [constructor|].
  rewrite bind_cons. repeat constructor; (apply str_plain || done).
Qed.

Lemma join_comma_plain (l : list string) :
  l ≠ [] →
  Forall (λ s, s ≠ "" ∧ Py.all_chars is_plain s = true) l →
  join_comma l ≠ ""
  ∧ Py.all_chars (λ c, negb (Py.isspace c)) (join_comma l) = true.
Proof.
  assert (∀ s, Py.all_chars is_plain s = true →
    Py.all_chars (λ c, negb (Py.isspace c)) s = true) as Hplain.
  { intros s. apply all_chars_impl. by intros c [? _]%andb_true_iff. }
  induction l as [|a l IH]; [done|]. intros _ Hl.
  apply Forall_cons in Hl as [[Hne Ha] Hl].
  destruct l as [|b l]; [by split; [|apply Hplain]|].
  change (join_comma (a :: b :: l)) with (a +:+ "," +:+ join_comma (b :: l)).
  destruct IH as [_ IH]; [done..|]. split.
  - by destruct a.
  - rewrite !all_chars_app, Hplain, IH by done. done.
Qed.

Lemma rstrip_nospace (s : string) :
  Py.all_chars (λ c, negb (Py.isspace c)) s = true → Py.rstrip s = s.
Proof.
  induction s as [|c s IH]; [done|]. cbn. intros [Hc Hs]%andb_true_iff.
  rewrite IH by done. apply negb_true_iff in Hc. rewrite Hc. by destruct s.
Qed.

Lemma rstrip_app_nospace (t s : string) :
  s ≠ "" →
  Py.all_chars (λ c, negb (Py.isspace c)) s = true →
  Py.rstrip (t +:+ s) = t +:+ s.
Proof.
  intros Hne Hs. induction t as [|c t IH]; [by apply rstrip_nospace|].
  rewrite app_cons. cbn. rewrite IH. destruct (t +:+ s) eqn:E; [|done].
  by destruct t, s.
Qed.

Lemma parse_pairs_numbers line ranges range_set st :
  parse_pairs line (numbers ranges) range_set st
  = (st, Return (range_set ++ ranges)).
Proof.
  revert range_set. induction ranges as [|[start end_] ranges IH];
    intros range_set.
  { cbn. by rewrite app_nil_r. }
  unfold numbers. rewrite bind_cons. cbn [app fst snd parse_pairs].
  rewrite !int_str_Z. fold (numbers ranges).
  by rewrite IH, <-(assoc_L (++)).
Qed.

Lemma numbers_length ranges :
  length (numbers ranges) = (2 * length ranges)%nat.
Proof.
  unfold numbers. induction ranges as [|r ranges IH]; [done|].
  rewrite bind_cons. cbn [app length]. rewrite IH. lia.
Qed.

Lemma strip_shown (c : ascii) (t sr : string) :
  Py.isspace c = false →
  sr ≠ "" →
  Py.all_chars (λ c, negb (Py.isspace c)) sr = true →
  Py.strip ((String c t +:+ " " +:+ sr) +:+ LF) = String c t +:+ " " +:+ sr.
Proof.
  intros Hc Hne Hsr. unfold Py.strip.
  rewrite (app_cons c t), (app_cons c _ LF). cbn [Py.lstrip_with]. rewrite Hc.
  rewrite <-(app_cons c _ LF), rstrip_LF, <-(app_cons c t), <-app_assoc_str.
  by apply rstrip_app_nospace.
Qed.

(** One well-formed line gives its command. *)
Lemma parse_lines_shown cmd ranges rest commands st :
  cmd ∈ ["erase"; "new"; "zero"] →
  ranges ≠ [] →
  parse_lines (((cmd +:+ " " +:+ join_comma (numbers ranges)) +:+ LF) :: rest)
    commands st
  = parse_lines rest (commands ++ [(cmd, ranges)]) st.
Proof.
  intros Hcmd Hne.
  assert (numbers ranges ≠ []) as Hnum.
  { intros H%(f_equal length). rewrite numbers_length in H.
    destruct ranges; [done|]. cbn in H. lia. }
  destruct (join_comma_plain (numbers ranges) Hnum (numbers_plain ranges))
    as [Hjne Hjsp].
  set (sr := join_comma (numbers ranges)) in *.
  assert (Py.all_chars (λ c, bool_decide (c ≠ " "%char)) sr = true) as Hjs.
  { revert Hjsp. apply all_chars_impl. intros c Hc.
    apply bool_decide_eq_true. by intros ->. }
  assert (Py.split "," sr = numbers ranges) as Hsc.
  { apply split_join_comma; [done|].
    eapply Forall_impl; [apply numbers_plain|]. by intros s [_ ?]. }
  assert (∃ c t, cmd = String c t ∧ Py.isspace c = false ∧ c ≠ "#"%char
                 ∧ Py.all_chars (λ c, bool_decide (c ≠ " "%char)) cmd = true
                 ∧ is_transfer_cmd cmd = true)
    as (c & t & -> & Hc & Hhash & Hcs & Htr).
  { revert Hcmd. rewrite !elem_of_cons, elem_of_nil.
    intros [->|[->|[->|[]]]]; by eexists _, _. }
  cbn [parse_lines]. rewrite strip_shown by done.
  assert (Py.startswith "#" (String c t +:+ " " +:+ sr) = false) as ->.
  { rewrite app_cons. cbn. by rewrite bool_decide_eq_false_2. }
  rewrite bool_decide_eq_false_2 by (by rewrite app_cons). cbn [orb].
  change (" " +:+ sr) with (String " " sr).
  rewrite split_app_sep, split_no_sep by done.
  rewrite Htr, Hsc.
  assert (Z.of_nat (length (numbers ranges)) `mod` 2 = 0) as ->
    by (rewrite numbers_length, Nat2Z.inj_mul, Z.mul_comm, Z.mod_mul; done).
  rewrite bool_decide_eq_false_2 by (by intros ?).
  by rewrite bind_run, parse_pairs_numbers.
Qed.

Lemma shown_no_line_break cmd ranges :
  cmd ∈ ["erase"; "new"; "zero"] →
  ranges ≠ [] →
  no_line_break (cmd +:+ " " +:+ join_comma (numbers ranges)) = true.
Proof.
  intros Hcmd Hne.
  assert (numbers ranges ≠ []) as Hnum.
  { intros H%(f_equal length). rewrite numbers_length in H.
    destruct ranges; [done|]. cbn in H. lia. }
  destruct (join_comma_plain (numbers ranges) Hnum (numbers_plain ranges))
    as [_ Hjsp].
  assert (no_line_break (join_comma (numbers ranges)) = true) as Hj.
  { revert Hjsp. apply all_chars_impl. intros c Hc.
    apply andb_true_iff. split; apply bool_decide_eq_true; by intros ->. }
  unfold no_line_break in *. rewrite !all_chars_app, Hj.
  revert Hcmd. rewrite !elem_of_cons, elem_of_nil.
  by intros [->|[->|[->|[]]]].
Qed.

(** A version-1 transfer list written with one line per command (the
    command [erase], [new] or [zero], a space, and the ends of its ranges
    in decimal with commas between them) parses to these commands, in
    their order and with their ranges paired in order, without a
    warning; the numbers may be negative, and have at most 4300
    digits. *)
Theorem parse_transfer_list_show_commands
    (commands : list command) (st : state) :
  Forall (λ c : command,
            c.1 ∈ ["erase"; "new"; "zero"] ∧ c.2 ≠ [] ∧ readable c.2)
    commands →
  parse_transfer_list ("1" +:+ LF +:+ show_commands commands) st
  = (st, Return commands).
Proof.
  intros Hcs. unfold parse_transfer_list.
  rewrite lines_of_line by done.
  rewrite bind_run, strip_digits_LF by done. unfold parse_version.
  change (Py.int "1") with (Some 1). cbn [mret M_ret].
  rewrite first_command_line_low by done. cbn [drop].
  assert (∀ acc, parse_lines
            (Py.readlines (Py.text_read (show_commands commands))) acc st
          = (st, Return (acc ++ commands))) as H; [|apply (H [])].
  induction commands as [|[cmd ranges] commands IH]; intros acc.
  { cbn. by rewrite app_nil_r. }
  apply Forall_cons in Hcs as [(Hcmd & Hne & _) Hcs].
  cbn [fst snd] in Hcmd, Hne.
  cbn [show_commands].
  rewrite lines_of_line by (by apply shown_no_line_break).
  rewrite parse_lines_shown, IH by done.
  by rewrite <-(assoc_L (++)).
Qed.

Lemma parse_transfer_list_show_commands_witness :
  parse_transfer_list
    ("1" +:+ LF
     +:+ show_commands [("new", [(0, 2); (5, 7)]); ("zero", [(-1, 3)])])
    init
  = (init, Return [("new", [(0, 2); (5, 7)]); ("zero", [(-1, 3)])]).
Proof.
  apply (parse_transfer_list_show_commands
           [("new", [(0, 2); (5, 7)]); ("zero", [(-1, 3)])] init).
  unfold readable. repeat constructor; (compute_done || done).
Defined.

(** ** The container written by [encrypt_to_ozip] *)

Lemma write_at_end (data old : bytes) :
  write_at (length old) data old = old ++ data.
Proof.
  destruct data as [|b data]; [by rewrite app_nil_r|].
  rewrite write_at_ne by done.
  by rewrite resize_all, drop_ge, app_nil_r by lia.
Qed.

Lemma write_at_start (data : bytes) : write_at 0 data [] = data.
Proof. destruct data; [done|]. rewrite write_at_ne by done. by rewrite app_nil_r. Qed.

Lemma blocks16_join (bs : list bytes) :
  Forall (λ b, length b = 16%nat) bs →
  blocks16 (length bs) (mjoin bs) = bs.
Proof.
  induction bs as [|b bs IH]; [done|]. intros [Hb Hbs]%Forall_cons.
  change (mjoin (b :: bs)) with (b ++ mjoin bs). cbn [length blocks16].
  rewrite take_app_length', drop_app_length' by done. by rewrite IH.
Qed.

Lemma join_blocks16 (n : nat) (data : bytes) :
  length data = (16 * n)%nat → mjoin (blocks16 n data) = data.
Proof.
  revert data. induction n as [|n IH]; intros data Hlen.
  { by destruct data. }
  cbn [blocks16].
  change (mjoin (?b :: ?bs)) with (b ++ mjoin bs).
  rewrite IH by (rewrite length_drop; lia). apply take_drop.
Qed.

Lemma blocks16_lengths (n : nat) (data : bytes) :
  (16 * n ≤ length data)%nat →
  Forall (λ b, length b = 16%nat) (blocks16 n data).
Proof.
  revert data. induction n as [|n IH]; intros data Hlen; [constructor|].
  cbn [blocks16]. constructor.
  - rewrite length_take. lia.
  - apply IH. rewrite length_drop. lia.
Qed.

Lemma join_length16 (bs : list bytes) :
  Forall (λ b, length b = 16%nat) bs →
  length (mjoin bs) = (16 * length bs)%nat.
Proof.
  induction bs as [|b bs IH]; [done|]. intros [Hb Hbs]%Forall_cons.
  change (mjoin (b :: bs)) with (b ++ mjoin bs).
  rewrite length_app, Hb, IH by done. cbn [length]. lia.
Qed.

Lemma blocks16_count (n : nat) (data : bytes) : length (blocks16 n data) = n.
Proof. revert data. induction n as [|n IH]; intros data; [done|]. cbn. by rewrite IH. Qed.

(** A block function that keeps the length of a block gives an output as
    long as the input, for an input that is whole blocks. *)
Lemma ecb_length (f : bytes → bytes) (data : bytes) :
  (∀ block, length block = 16%nat → length (f block) = 16%nat) →
  Z.of_nat (length data) `mod` 16 = 0 →
  length (ecb f data) = length data.
Proof.
  intros Hf Hmod. rewrite mod_16_nat in Hmod. unfold ecb.
  pose proof (Nat.div_mod_eq (length data) 16) as Hk.
  rewrite join_length16, length_fmap, blocks16_count; [lia|].
  apply Forall_fmap. eapply Forall_impl; [apply blocks16_lengths; lia|].
  intros b Hb. by apply Hf.
Qed.

(** A block function undone by another one is undone block by block. *)
Lemma ecb_inverse (f g : bytes → bytes) (data : bytes) :
  (∀ block, length block = 16%nat →
     length (f block) = 16%nat ∧ g (f block) = block) →
  Z.of_nat (length data) `mod` 16 = 0 →
  ecb g (ecb f data) = data.
Proof.
  intros Hf Hmod. unfold ecb at 1.
  rewrite (ecb_length f) by (done || by apply Hf).
  rewrite mod_16_nat in Hmod. unfold ecb.
  pose proof (Nat.div_mod_eq (length data) 16) as Hk.
  set (n := (length data `div` 16)%nat) in *.
  assert (Forall (λ b, length b = 16%nat) (blocks16 n data)) as Hbs
    by (apply blocks16_lengths; lia).
  rewrite <-(blocks16_count n data) at 1. rewrite <-(length_fmap f).
  rewrite blocks16_join.
  - rewrite <-list_fmap_compose.
    rewrite (Forall_fmap_ext_1 (g ∘ f) id); [|].
    + rewrite list_fmap_id. apply join_blocks16. lia.
    + eapply Forall_impl; [exact Hbs|]. intros b Hb. by apply Hf.
  - apply Forall_fmap. eapply Forall_impl; [exact Hbs|].
    intros b Hb. by apply Hf.
Qed.

Section CipherFurther.

Variable aes_encrypt_block : bytes → bytes → bytes.
Variable aes_decrypt_block : bytes → bytes → bytes.

Lemma valid_key_nonempty key_hex : valid_key key_hex = true → key_hex ≠ "".
Proof. by intros Hv ->. Qed.

Lemma encrypt_to_ozip_run (zip : bytes) (key_hex : string) (st : state) :
  successful_key st = Some key_hex →
  valid_key key_hex = true →
  cancel_requested st = false →
  encrypt_to_ozip aes_encrypt_block zip st
  = (with_messages ["OZIP encryption completed with key: " +:+ key_hex]
       (with_output (Some (encrypted_container aes_encrypt_block key_hex zip))
          (length (encrypted_container aes_encrypt_block key_hex zip))
          (with_aes_new [key_bytes key_hex] st)),
     Return true).
Proof.
  intros Hkey Hv Hc. unfold encrypt_to_ozip.
  rewrite bind_run. unfold get_successful_key. rewrite Hkey.
  destruct key_hex as [|c k]; [done|]. set (key_hex := String c k) in *.
  unfold try_except.
  rewrite bind_run, unhexlify_valid, bind_run, AES_new_valid by done.
  cbv zeta. rewrite bind_run. unfold open_wb, set_output.
  rewrite bind_run, (write_run _ _ []) by done.
  autorewrite with state_proj. rewrite write_at_start, Nat.add_0_l.
  rewrite bind_run.
  rewrite (encrypt_chunks_run _ _ _ _ _ _ _ ozip_header) by (done || lia).
  cbv zeta. autorewrite with state_proj. rewrite write_at_end.
  cbn [cipher_key]. rewrite !bind_run. unfold log_message. cbn [mret M_ret].
  unfold encrypted_container. by rewrite length_app.
Qed.

(** With a stored key that [unhexlify] and [AES.new] accept and no cancel
    requested, [encrypt_to_ozip] returns [True] and leaves a container
    made of the header of 0x1050 bytes (the 12 bytes "OPPOENCRYPT!" and
    zero bytes) and of the blocks of the archive, padded, encrypted with
    that key; [AES.new] was called once, with that key. *)
Theorem encrypt_to_ozip_container
    (zip : bytes) (key_hex : string) (st : state) :
  successful_key st = Some key_hex →
  valid_key key_hex = true →
  cancel_requested st = false →
  ∃ st',
    encrypt_to_ozip aes_encrypt_block zip st = (st', Return true)
    ∧ output st' = Some (encrypted_container aes_encrypt_block key_hex zip)
    ∧ take 12 (encrypted_container aes_encrypt_block key_hex zip) = ozip_magic
    ∧ take (Z.to_nat 0x1050)
        (encrypted_container aes_encrypt_block key_hex zip)
      = ozip_magic ++ replicate (Z.to_nat (0x1050 - 12)) x00
    ∧ aes_new_calls st' = aes_new_calls st ++ [key_bytes key_hex]
    ∧ message_queue st'
      = message_queue st
        ++ ["OZIP encryption completed with key: " +:+ key_hex].
Proof.
  intros Hkey Hv Hc. eexists. split; [by apply encrypt_to_ozip_run|].
  split_and!; [done| | |done|done].
  - unfold encrypted_container, ozip_header.
    by rewrite <-(assoc_L (++)), take_app_length'.
  - unfold encrypted_container. by rewrite take_app_length'.
Qed.

(** With no stored key, or one that [unhexlify] or [AES.new] refuses,
    [encrypt_to_ozip] raises and the output file is as it was: it is not
    created. *)
Theorem encrypt_to_ozip_without_valid_key (zip : bytes) (st : state) :
  match successful_key st with
  | Some key_hex => valid_key key_hex = false
  | None => True
  end →
  ∃ st' e,
    encrypt_to_ozip aes_encrypt_block zip st = (st', Raise e)
    ∧ output st' = output st
    ∧ position st' = position st.
Proof.
  intros Hkey. unfold encrypt_to_ozip.
  rewrite bind_run. unfold get_successful_key.
  destruct (successful_key st) as [[|c k]|]; [by eexists _, _| |by eexists _, _].
  set (key_hex := String c k) in *. unfold try_except.
  rewrite bind_run. unfold unhexlify.
  case_bool_decide as Heven; [by eexists _, _|].
  destruct (unhex_pairs key_hex) as [key|] eqn:Ehex; [|by eexists _, _].
  cbn [mret M_ret]. rewrite bind_run.
  unfold AES_new. rewrite bind_run. unfold record_aes_new.
  case_bool_decide as Hlen; [|by eexists _, _].
  exfalso. unfold valid_key, key_bytes in Hkey. rewrite Ehex in Hkey.
  rewrite (bool_decide_eq_true_2 _ Heven) in Hkey.
  rewrite (bool_decide_eq_true_2 (is_Some (Some key))) in Hkey by done.
  cbn [default option_map andb] in Hkey.
  by rewrite (bool_decide_eq_true_2 _ Hlen) in Hkey.
Qed.

(** When cancellation was requested before the first chunk,
    [encrypt_to_ozip] on an archive that is not empty raises "Conversion
    cancelled by user" after it has created the container: the file is
    left with the header alone. *)
Theorem encrypt_to_ozip_cancelled
    (zip : bytes) (key_hex : string) (st : state) :
  successful_key st = Some key_hex →
  valid_key key_hex = true →
  cancel_requested st = true →
  zip ≠ [] →
  ∃ st',
    encrypt_to_ozip aes_encrypt_block zip st
    = (st', Raise (Exception "Conversion cancelled by user"))
    ∧ output st' = Some ozip_header
    ∧ message_queue st'
      = message_queue st
        ++ ["Encryption failed with key " +:+ key_hex
            +:+ ": Conversion cancelled by user"].
Proof.
  intros Hkey Hv Hc Hzip. unfold encrypt_to_ozip.
  rewrite bind_run. unfold get_successful_key. rewrite Hkey.
  destruct key_hex as [|c k]; [done|]. set (key_hex := String c k) in *.
  unfold try_except.
  rewrite bind_run, unhexlify_valid, bind_run, AES_new_valid by done.
  cbv zeta. rewrite bind_run. unfold open_wb, set_output.
  rewrite bind_run, (write_run _ _ []) by done.
  autorewrite with state_proj. rewrite write_at_start, Nat.add_0_l.
  rewrite bind_run, encrypt_chunks_body.
  rewrite decide_True by (destruct zip; [done|cbn [length]; lia]).
  change (cancel_requested (with_output _ _ (with_aes_new _ st)))
    with (cancel_requested st).
  rewrite Hc. rewrite bind_run. unfold log_message. cbn.
  by eexists.
Qed.

(** ** Decryption of what was encrypted *)

(** For a cipher whose decryption of a block undoes its encryption with
    the same key, [decrypt_ozip] on the container [encrypt_to_ozip] wrote
    for an archive that starts with the ZIP signature returns [True], when
    no key before the stored one in [KEYS] validates the container: it
    leaves the archive with its padding, which it does not take off, and
    the same stored key. *)
Theorem decrypt_ozip_of_encrypt_to_ozip
    (zip : bytes) (st : state) (pre post : list string) (key_hex : string) :
  (∀ block, length block = 16%nat →
     length (aes_encrypt_block (key_bytes key_hex) block) = 16%nat
     ∧ aes_decrypt_block (key_bytes key_hex)
         (aes_encrypt_block (key_bytes key_hex) block) = block) →
  successful_key st = Some key_hex →
  cancel_requested st = false →
  KEYS = pre ++ key_hex :: post →
  take 4 zip = zip_magic →
  Forall (λ key_hex',
            ¬ validates aes_decrypt_block
                (encrypted_container aes_encrypt_block key_hex zip)
                key_hex') pre →
  ∃ st1 st2,
    encrypt_to_ozip aes_encrypt_block zip st = (st1, Return true)
    ∧ output st1 = Some (encrypted_container aes_encrypt_block key_hex zip)
    ∧ decrypt_ozip aes_decrypt_block
        (encrypted_container aes_encrypt_block key_hex zip) st1
      = (st2, Return true)
    ∧ output st2 = Some (pad_if_needed zip)
    ∧ successful_key st2 = Some key_hex.
Proof.
  intros Hinv Hkey Hc HK Hmagic Hpre.
  pose proof KEYS_valid as Hvalid. rewrite HK in Hvalid.
  assert (valid_key key_hex = true) as Hv.
  { apply Forall_app in Hvalid as [_ Hvalid].
    by apply Forall_cons in Hvalid as [? _]. }
  pose proof (encrypt_to_ozip_run zip key_hex st Hkey Hv Hc) as Hrun.
  set (st1 := with_messages _ _) in Hrun.
  assert (cancel_requested st1 = false) as Hc1 by exact Hc.
  set (ozip := encrypted_container aes_encrypt_block key_hex zip) in *.
  set (body := ecb (aes_encrypt_block (key_bytes key_hex)) (pad_if_needed zip)).
  assert (length body = length (pad_if_needed zip)) as Hbody.
  { apply ecb_length; [|apply pad_if_needed_length].
    intros block Hb. by apply Hinv. }
  assert (ozip_body ozip = body) as Hob.
  { unfold ozip_body, ozip, encrypted_container. by rewrite drop_app_length'. }
  assert (trial_plaintext aes_decrypt_block ozip key_hex = pad_if_needed zip)
    as Hplain.
  { unfold trial_plaintext. rewrite Hob.
    rewrite pad_if_needed_aligned
      by (rewrite Hbody; apply pad_if_needed_length).
    apply ecb_inverse; [done|apply pad_if_needed_length]. }
  assert (validates aes_decrypt_block ozip key_hex) as Hval.
  { assert (4 ≤ length zip)%nat as Hlen.
    { pose proof (f_equal length Hmagic) as Hl. rewrite length_take in Hl.
      change (length zip_magic) with 4%nat in Hl. lia. }
    unfold validates. rewrite Hplain, <-Hmagic.
    unfold pad_if_needed, pad. case_bool_decide; [|done].
    by rewrite take_app_le. }
  assert (0x1050 ≤ Z.of_nat (length ozip)) as Hlen.
  { unfold ozip, encrypted_container. rewrite length_app.
    change (length ozip_header) with (Z.to_nat 0x1050). lia. }
  exists st1. eexists. split_and!; [done|done| | |].
  - rewrite decrypt_ozip_large by done. rewrite HK.
    by apply try_keys_first.
  - rewrite <-Hplain. reflexivity.
  - reflexivity.
Qed.

(** ** Cancellation and the keys *)

(** After [cancel_conversion], [decrypt_ozip] on a container of at least
    0x1050 bytes returns [False] at once: no key is tried and no file is
    written. *)
Theorem decrypt_ozip_after_cancel (ozip : bytes) (st : state) :
  0x1050 ≤ Z.of_nat (length ozip) →
  (cancel_conversion ≫= λ _, decrypt_ozip aes_decrypt_block ozip) st
  = (with_messages ["Cancellation requested..."] (with_cancel true st),
     Return false).
Proof.
  intros Hlen. rewrite bind_run. unfold cancel_conversion.
  rewrite bind_run. unfold log_message.
  rewrite decrypt_ozip_large by done. unfold KEYS.
  by rewrite try_keys_cancelled.
Qed.

(** When [decrypt_ozip] returns [True], the key it stored is a key of
    [KEYS] that validates the container, the output file holds the
    decryption with that key, and no key before it in [KEYS] validates;
    in particular no earlier key has the same bytes, so of two spellings
    of a key only the first can ever be stored. *)
Theorem decrypt_ozip_stored_key (ozip : bytes) (st st' : state) :
  decrypt_ozip aes_decrypt_block ozip st = (st', Return true) →
  ∃ pre key_hex post,
    KEYS = pre ++ key_hex :: post
    ∧ successful_key st' = Some key_hex
    ∧ validates aes_decrypt_block ozip key_hex
    ∧ output st' = Some (trial_plaintext aes_decrypt_block ozip key_hex)
    ∧ Forall (λ key_hex',
                ¬ validates aes_decrypt_block ozip key_hex'
                ∧ key_bytes key_hex' ≠ key_bytes key_hex) pre.
Proof.
  intros Hrun.
  destruct (decide (Z.of_nat (length ozip) < 0x1050)) as [Hsmall|Hlen].
  { by rewrite decrypt_ozip_small in Hrun. }
  destruct (cancel_requested st) eqn:Hc.
  { rewrite decrypt_ozip_large in Hrun by lia. unfold KEYS in Hrun.
    by rewrite try_keys_cancelled in Hrun. }
  destruct (decrypt_ozip_outcome aes_decrypt_block ozip st Hc ltac:(lia))
    as [[_ Hraise]|(pre & key_hex & post & HK & Hpre & Hval & Hret)].
  { by rewrite Hraise in Hrun. }
  rewrite Hret in Hrun. injection Hrun as <-.
  exists pre, key_hex, post. split_and!; [done..|].
  eapply Forall_impl; [exact Hpre|]. intros key_hex' Hn. split; [done|].
  intros Hsame. apply Hn. unfold validates, trial_plaintext in *.
  by rewrite Hsame.
Qed.

End CipherFurther.

(** ** Witnesses for the container *)

Lemma all_bytes_all (b : byte) : b ∈ all_bytes.
Proof.
  unfold all_bytes. apply list_elem_of_fmap. exists (Byte.to_nat b). split.
  - unfold bchr. by rewrite Byte.of_to_nat.
  - apply elem_of_seq. pose proof (Byte.to_nat_bounded b). lia.
Qed.

Lemma xor_byte_twice (a b : byte) : xor_byte (xor_byte a b) b = a.
Proof.
  assert (forallb (λ a, forallb (λ b,
            bool_decide (xor_byte (xor_byte a b) b = a)) all_bytes) all_bytes
          = true) as H by (vm_compute; reflexivity).
  rewrite forallb_forall in H.
  specialize (H a ltac:(apply list_elem_of_In, all_bytes_all)).
  rewrite forallb_forall in H.
  specialize (H b ltac:(apply list_elem_of_In, all_bytes_all)).
  by apply bool_decide_eq_true in H.
Qed.

Lemma xor_block_twice (key block : bytes) :
  (length block ≤ length key)%nat →
  length (xor_block key block) = length block
  ∧ xor_block key (xor_block key block) = block.
Proof.
  unfold xor_block. revert key. induction block as [|b block IH];
    intros [|k key] Hlen; [done..|cbn in Hlen; lia|].
  cbn [length] in Hlen. destruct (IH key ltac:(lia)) as [IH1 IH2].
  cbn [zip_with length]. by rewrite IH1, IH2, xor_byte_twice.
Qed.

Lemma encrypt_to_ozip_container_witness :
  ∃ st',
    encrypt_to_ozip xor_block sample_archive third_key_stored
    = (st', Return true)
    ∧ output st' = Some (encrypted_container xor_block third_key sample_archive)
    ∧ take 12 (encrypted_container xor_block third_key sample_archive)
      = ozip_magic
    ∧ take (Z.to_nat 0x1050)
        (encrypted_container xor_block third_key sample_archive)
      = ozip_magic ++ replicate (Z.to_nat (0x1050 - 12)) x00
    ∧ aes_new_calls st'
      = aes_new_calls third_key_stored ++ [key_bytes third_key]
    ∧ message_queue st'
      = message_queue third_key_stored
        ++ ["OZIP encryption completed with key: " +:+ third_key].
Proof.
  apply (encrypt_to_ozip_container xor_block sample_archive third_key
           third_key_stored); reflexivity.
Defined.

Lemma encrypt_to_ozip_without_valid_key_witness :
  ∃ st' e,
    encrypt_to_ozip xor_block sample_archive init = (st', Raise e)
    ∧ output st' = output init
    ∧ position st' = position init.
Proof.
  apply (encrypt_to_ozip_without_valid_key xor_block sample_archive init).
  exact I.
Defined.

(** A stored key of odd length: [unhexlify] raises. *)
Example encrypt_to_ozip_odd_key :
  encrypt_to_ozip xor_block sample_archive (with_successful_key "abc" init)
  = (with_messages ["Encryption failed with key abc: Odd-length string"]
       (with_successful_key "abc" init),
     Raise (binascii_Error "Odd-length string")).
Proof. compute_done. Qed.

Lemma encrypt_to_ozip_cancelled_witness :
  ∃ st',
    encrypt_to_ozip xor_block sample_archive
      (with_cancel true third_key_stored)
    = (st', Raise (Exception "Conversion cancelled by user"))
    ∧ output st' = Some ozip_header
    ∧ message_queue st'
      = message_queue (with_cancel true third_key_stored)
        ++ ["Encryption failed with key " +:+ third_key
            +:+ ": Conversion cancelled by user"].
Proof.
  apply (encrypt_to_ozip_cancelled xor_block sample_archive third_key
           (with_cancel true third_key_stored)); [reflexivity..|discriminate].
Defined.

Lemma decrypt_ozip_of_encrypt_to_ozip_witness :
  ∃ st1 st2,
    encrypt_to_ozip xor_block signed_archive third_key_stored
    = (st1, Return true)
    ∧ output st1 = Some (encrypted_container xor_block third_key signed_archive)
    ∧ decrypt_ozip xor_block
        (encrypted_container xor_block third_key signed_archive) st1
      = (st2, Return true)
    ∧ output st2 = Some (pad_if_needed signed_archive)
    ∧ successful_key st2 = Some third_key.
Proof.
  apply (decrypt_ozip_of_encrypt_to_ozip xor_block xor_block signed_archive
           third_key_stored (take 2 KEYS) (drop 3 KEYS) third_key).
  - intros block Hblock.
    destruct (xor_block_twice (key_bytes third_key) block) as [Hlen Htwice].
    + rewrite Hblock. compute_done.
    + split; [by rewrite Hlen|exact Htwice].
  - reflexivity.
  - reflexivity.
  - reflexivity.
  - reflexivity.
  - compute_done.
Defined.

Lemma decrypt_ozip_after_cancel_witness :
  (cancel_conversion ≫= λ _, decrypt_ozip xor_block third_key_ozip) init
  = (with_messages ["Cancellation requested..."] (with_cancel true init),
     Return false).
Proof.
  apply (decrypt_ozip_after_cancel xor_block third_key_ozip init).
  compute_done.
Defined.

Lemma decrypt_ozip_stored_key_witness :
  ∃ pre key_hex post,
    KEYS = pre ++ key_hex :: post
    ∧ successful_key
        (decrypted_state third_key (zip_magic ++ replicate 12 x00)
           (with_aes_new (key_bytes <$> take 2 KEYS) init))
      = Some key_hex
    ∧ validates xor_block third_key_ozip key_hex
    ∧ output
        (decrypted_state third_key (zip_magic ++ replicate 12 x00)
           (with_aes_new (key_bytes <$> take 2 KEYS) init))
      = Some (trial_plaintext xor_block third_key_ozip key_hex)
    ∧ Forall (λ key_hex',
                ¬ validates xor_block third_key_ozip key_hex'
                ∧ key_bytes key_hex' ≠ key_bytes key_hex) pre.
Proof.
  apply (decrypt_ozip_stored_key xor_block third_key_ozip init).
  compute_done.
Defined.

(** ** The message queue *)

Lemma get_all_loop_run (queue messages : list string) :
  get_all_loop queue messages = ([], messages ++ queue).
Proof.
  revert messages. induction queue as [|m queue IH]; intros messages.
  { by rewrite app_nil_r. }
  cbn [get_all_loop]. by rewrite IH, <-(assoc_L (++)).
Qed.

Lemma get_all_run (st : state) :
  get_all st = (with_queue [] st, Return (message_queue st)).
Proof. unfold get_all. by rewrite get_all_loop_run. Qed.

Lemma log_all_run (messages : list string) (st : state) :
  log_all messages st = (with_messages messages st, Return ()).
Proof.
  revert st. induction messages as [|m messages IH]; intros st.
  { cbn. by rewrite with_messages_nil. }
  cbn [log_all foldr]. rewrite bind_run. unfold log_message at 1.
  fold (log_all messages). rewrite IH.
  by rewrite with_messages_app.
Qed.

(** [get_all] gives the messages logged since the queue was last emptied,
    each once and oldest first, and leaves the queue empty: a second
    [get_all] gives no message. *)
Theorem get_all_gives_logged_messages (messages : list string) (st : state) :
  (log_all messages ;; get_all) st
  = (with_queue [] st, Return (message_queue st ++ messages))
  ∧ (log_all messages ;; get_all ;; get_all) st
    = (with_queue [] st, Return []).
Proof.
  split.
  - by rewrite bind_run, log_all_run, get_all_run.
  - by rewrite bind_run, log_all_run, bind_run, get_all_run, get_all_run.
Qed.

(** ** The search for a file *)

Section WalkProofs.

Variable join : string → string → string.

Lemma directory_induction (P : directory → Prop) :
  (∀ files dirs,
     Forall (λ entry : string * directory, P entry.2) dirs →
     P (Directory files dirs)) →
  ∀ d, P d.
Proof.
  intros H. fix IH 1. intros [files dirs]. apply H.
  induction dirs as [|[name sub] dirs IHdirs]; constructor.
  - apply IH.
  - apply IHdirs.
Qed.

Lemma walk_eq (top : string) (files : list string)
    (dirs : list (string * directory)) :
  walk join top (Directory files dirs)
  = (top, fst <$> dirs, files)
    :: (dirs ≫= λ entry, walk join (join top entry.1) entry.2).
Proof.
  cbn [walk]. f_equal.
  induction dirs as [|[name sub] dirs IH]; [done|].
  rewrite bind_cons. cbn [fst snd]. by rewrite IH.
Qed.

Lemma walk_located (d : directory) :
  ∀ top root ds files filename,
    (root, ds, files) ∈ walk join top d →
    filename ∈ files →
    located join top d filename (join root filename).
Proof.
  induction d as [files dirs IH] using directory_induction.
  intros top root ds fs filename Hin Hf. rewrite walk_eq in Hin.
  apply elem_of_cons in Hin as [[= -> -> ->]|Hin]; [by constructor|].
  apply list_elem_of_bind in Hin as ([name sub] & Hin & Hsub).
  apply (located_below _ _ _ _ name sub); [done|].
  rewrite Forall_forall in IH. by apply (IH _ Hsub) with ds fs.
Qed.

Lemma located_walk top d filename path :
  located join top d filename path →
  ∃ root ds files,
    (root, ds, files) ∈ walk join top d
    ∧ filename ∈ files ∧ path = join root filename.
Proof.
  induction 1 as [top files dirs filename Hf
                 |top files dirs name sub filename path Hsub _ IH].
  - exists top, (fst <$> dirs), files. rewrite walk_eq.
    split; [by left|done].
  - destruct IH as (root & ds & fs & Hin & Hf & ->).
    exists root, ds, fs. split; [|done]. rewrite walk_eq. right.
    apply list_elem_of_bind. by exists (name, sub).
Qed.

Lemma find_in_Some entries filename path :
  find_in join entries filename = Some path →
  ∃ root ds files,
    (root, ds, files) ∈ entries ∧ filename ∈ files
    ∧ path = join root filename.
Proof.
  induction entries as [|[[root ds] files] entries IH]; [done|].
  cbn [find_in]. case_bool_decide as Hf.
  - intros [= <-]. exists root, ds, files. split; [by left|done].
  - intros (root' & ds' & files' & Hin & ?)%IH.
    exists root', ds', files'. split; [by right|done].
Qed.

Lemma find_in_None entries filename :
  find_in join entries filename = None →
  ∀ root ds files, (root, ds, files) ∈ entries → filename ∉ files.
Proof.
  induction entries as [|[[root ds] files] entries IH]; intros Hnone.
  { by intros ??? ?%elem_of_nil. }
  cbn [find_in] in Hnone. case_bool_decide as Hf; [done|].
  intros root' ds' files' [[= -> -> ->]|Hin]%elem_of_cons; [done|].
  by apply (IH Hnone root' ds').
Qed.

(** [find_file] finds a file exactly when some directory of the tree
    lists the name: a path it returns is the path of such a directory
    joined with the name, it returns [None] only when the tree has no
    such file, and a file of that name in the top directory is the one
    found, whatever the sub-directories hold. *)
Theorem find_file_finds (top : string) (d : directory) (filename : string) :
  (∀ path, find_file join top d filename = Some path →
           located join top d filename path)
  ∧ (find_file join top d filename = None ↔
     ¬ ∃ path, located join top d filename path)
  ∧ (∀ files dirs, d = Directory files dirs → filename ∈ files →
       find_file join top d filename = Some (join top filename)).
Proof.
  unfold find_file. split_and!.
  - intros path (root & ds & files & Hin & Hf & ->)%find_in_Some.
    by apply walk_located with ds files.
  - split.
    + intros Hnone [path (root & ds & files & Hin & Hf & _)%located_walk].
      by apply (find_in_None _ _ Hnone root ds files).
    + intros Hno.
      destruct (find_in join (walk join top d) filename) as [path|] eqn:E;
        [|done].
      destruct Hno. exists path.
      apply find_in_Some in E as (root & ds & files & Hin & Hf & ->).
      by apply walk_located with ds files.
  - intros files dirs -> Hf. rewrite walk_eq. cbn [find_in].
    by rewrite bool_decide_eq_true_2.
Qed.

End WalkProofs.

Lemma find_file_finds_witness :
  located slash_join "extracted" sample_tree "system.transfer.list"
    "extracted/META-INF/system.transfer.list".
Proof.
  apply (proj1 (find_file_finds slash_join "extracted" sample_tree
                  "system.transfer.list")).
  compute_done.
Defined.

(** The first directory in the order of [os.walk] wins. *)
Example find_file_first_directory :
  find_file slash_join "extracted" sample_tree "system.transfer.list"
  = Some "extracted/META-INF/system.transfer.list"
  ∧ find_file slash_join "extracted" sample_tree "system.new.dat.br"
    = Some "extracted/firmware/system.new.dat.br"
  ∧ find_file slash_join "extracted" sample_tree "vendor.new.dat.br" = None.
Proof. split_and!; compute_done. Qed.

(** ** Line ends *)

Lemma text_read_id (s : string) :
  Py.all_chars (λ c, bool_decide (c ≠ "013"%char)) s = true →
  Py.text_read s = s.
Proof.
  induction s as [|c s IH]; [done|]. cbn.
  intros [Hc Hs]%andb_true_iff. apply bool_decide_eq_true in Hc.
  rewrite decide_False by done. by rewrite IH.
Qed.

(** A transfer list written in text mode parses to the same commands on
    either platform: with the line ends CR LF of Windows it gives what
    the text with plain line feeds gives. *)
Theorem parse_transfer_list_line_ends
    (os : Py.platform) (text : string) (st : state) :
  Py.all_chars (λ c, bool_decide (c ≠ "013"%char)) text = true →
  parse_transfer_list (Py.text_write os text) st
  = parse_transfer_list text st.
Proof.
  intros Htext. unfold parse_transfer_list.
  by rewrite text_read_write, text_read_id.
Qed.

Lemma parse_transfer_list_line_ends_witness :
  parse_transfer_list (Py.text_write Py.Windows overlap_document) init
  = parse_transfer_list overlap_document init.
Proof.
  apply (parse_transfer_list_line_ends Py.Windows overlap_document init).
  reflexivity.
Defined.

(** ** The size of the container *)

Lemma pad_if_needed_size (data : bytes) :
  Z.of_nat (length (pad_if_needed data))
  = 16 * ((Z.of_nat (length data) + 15) `div` 16).
Proof.
  unfold pad_if_needed, pad. case_bool_decide as Hmod.
  - rewrite length_app, length_replicate. rewrite mod_16_nat in Hmod.
    pose proof (Nat.mod_upper_bound (length data) 16 ltac:(done)).
    pose proof (mod_16_nat (length data)).
    Z.div_mod_to_equations. lia.
  - Z.div_mod_to_equations. lia.
Qed.

(** The length of what [encrypted_container] describes, for a block
    cipher that gives 16 bytes for a block of 16 bytes. *)
Lemma encrypted_container_size
    (aes_encrypt_block : bytes → bytes → bytes) (key_hex : string)
    (zip : bytes) :
  (∀ block, length block = 16%nat →
     length (aes_encrypt_block (key_bytes key_hex) block) = 16%nat) →
  Z.of_nat (length (encrypted_container aes_encrypt_block key_hex zip))
  = 0x1050 + 16 * ((Z.of_nat (length zip) + 15) `div` 16).
Proof.
  intros Hlen. unfold encrypted_container.
  rewrite length_app, ecb_length by (done || apply pad_if_needed_length).
  rewrite Nat2Z.inj_add, pad_if_needed_size. done.
Qed.

(** With a stored key that [unhexlify] and [AES.new] accept, no cancel
    requested, and a block cipher that gives 16 bytes for a block of 16
    bytes, [encrypt_to_ozip] returns [True] and the container it leaves
    has 0x1050 bytes of header and the length of the archive rounded up
    to a multiple of 16: an archive of whole blocks gets no padding. *)
Theorem encrypt_to_ozip_container_size
    (aes_encrypt_block : bytes → bytes → bytes) (zip : bytes)
    (key_hex : string) (st : state) :
  successful_key st = Some key_hex →
  valid_key key_hex = true →
  cancel_requested st = false →
  (∀ block, length block = 16%nat →
     length (aes_encrypt_block (key_bytes key_hex) block) = 16%nat) →
  ∃ st' container,
    encrypt_to_ozip aes_encrypt_block zip st = (st', Return true)
    ∧ output st' = Some container
    ∧ Z.of_nat (length container)
      = 0x1050 + 16 * ((Z.of_nat (length zip) + 15) `div` 16).
Proof.
  intros Hkey Hv Hc Hlen. eexists _, _.
  split; [by apply encrypt_to_ozip_run|]. split; [done|].
  by apply encrypted_container_size.
Qed.

Lemma xor_block_length (key_hex : string) (block : bytes) :
  key_hex ∈ KEYS →
  length block = 16%nat →
  length (xor_block (key_bytes key_hex) block) = 16%nat.
Proof.
  intros Hkey Hblock.
  assert (Forall (λ k, length (key_bytes k) = 16%nat) KEYS) as Hkeys
    by compute_done.
  rewrite Forall_forall in Hkeys. specialize (Hkeys _ Hkey).
  destruct (xor_block_twice (key_bytes key_hex) block) as [Hlen _]; [lia|].
  by rewrite Hlen.
Qed.

Lemma encrypt_to_ozip_container_size_witness :
  ∃ st' container,
    encrypt_to_ozip xor_block sample_archive third_key_stored
    = (st', Return true)
    ∧ output st' = Some container
    ∧ Z.of_nat (length container)
      = 0x1050 + 16 * ((Z.of_nat (length sample_archive) + 15) `div` 16).
Proof.
  apply (encrypt_to_ozip_container_size xor_block sample_archive third_key
           third_key_stored); [reflexivity..|].
  intros block Hblock. apply xor_block_length; [compute_done|done].
Defined.

(** The length of what [trial_plaintext] describes, for a block cipher
    that gives 16 bytes for a block of 16 bytes. *)
Lemma trial_plaintext_size
    (aes_decrypt_block : bytes → bytes → bytes) (key_hex : string)
    (ozip : bytes) :
  (∀ block, length block = 16%nat →
     length (aes_decrypt_block (key_bytes key_hex) block) = 16%nat) →
  0x1050 ≤ Z.of_nat (length ozip) →
  Z.of_nat (length (trial_plaintext aes_decrypt_block ozip key_hex))
  = 16 * ((Z.of_nat (length ozip) - 0x1050 + 15) `div` 16).
Proof.
  intros Hlen Hsize. unfold trial_plaintext.
  rewrite ecb_length by (done || apply pad_if_needed_length).
  rewrite pad_if_needed_size, ozip_body_length by done.
  do 2 f_equal. lia.
Qed.

(** Whenever [decrypt_ozip] returns [True], with a block cipher that
    gives 16 bytes for a block of 16 bytes under the keys of [KEYS], the
    container has at least 0x1050 bytes and the archive left in the
    output file has the length of the body rounded up to a multiple of
    16: a body that is not whole blocks is padded before it is decrypted,
    never refused, and nothing is taken off afterwards. *)
Theorem decrypt_ozip_archive_size
    (aes_decrypt_block : bytes → bytes → bytes) (ozip : bytes)
    (st st' : state) :
  decrypt_ozip aes_decrypt_block ozip st = (st', Return true) →
  (∀ key_hex block, key_hex ∈ KEYS → length block = 16%nat →
     length (aes_decrypt_block (key_bytes key_hex) block) = 16%nat) →
  ∃ archive,
    output st' = Some archive
    ∧ 0x1050 ≤ Z.of_nat (length ozip)
    ∧ Z.of_nat (length archive)
      = 16 * ((Z.of_nat (length ozip) - 0x1050 + 15) `div` 16).
Proof.
  intros Hrun Hlen.
  destruct (decide (Z.of_nat (length ozip) < 0x1050)) as [Hsmall|Hsize].
  { by rewrite decrypt_ozip_small in Hrun. }
  destruct (cancel_requested st) eqn:Hc.
  { rewrite decrypt_ozip_large in Hrun by lia. unfold KEYS in Hrun.
    by rewrite try_keys_cancelled in Hrun. }
  destruct (decrypt_ozip_outcome aes_decrypt_block ozip st Hc ltac:(lia))
    as [[_ Hraise]|(pre & key_hex & post & HK & _ & _ & Hret)].
  { by rewrite Hraise in Hrun. }
  rewrite Hret in Hrun. injection Hrun as <-.
  exists (trial_plaintext aes_decrypt_block ozip key_hex).
  split_and!; [done|lia|].
  apply trial_plaintext_size; [|lia].
  intros block Hblock. apply Hlen; [|done].
  rewrite HK. apply elem_of_app. right. by left.
Qed.

Lemma decrypt_ozip_archive_size_witness :
  ∃ archive,
    output (decrypt_ozip xor_block ragged_ozip init).1 = Some archive
    ∧ 0x1050 ≤ Z.of_nat (length ragged_ozip)
    ∧ Z.of_nat (length archive)
      = 16 * ((Z.of_nat (length ragged_ozip) - 0x1050 + 15) `div` 16).
Proof.
  apply (decrypt_ozip_archive_size xor_block ragged_ozip init
           (decrypt_ozip xor_block ragged_ozip init).1).
  - compute_done.
  - intros key_hex block. apply xor_block_length.
Defined.
